(** * Frustum proposals: calibrated transforms and field-of-view filtering

    Shallow embedding of [src/models/frustum_proposal.py] (class
    [FrustumProposal]) and the properties of its transform chain and of the
    frustum extraction.

    Conventions of the embedding.
    - A float64 entry of a numpy array is a rational ([Q]): arithmetic is
      exact, so equalities of computed coordinates are stated up to [Qeq].
      The one operation of the file that leaves the finite numbers, the
      perspective divide, has its result in [xval], which adds the IEEE
      values [+inf], [-inf] and [nan] (numpy divides arrays by zero with a
      warning, not with an exception).
    - A 2-D array is its column count together with its rows ([ndarray]); the
      column count is what distinguishes the shapes (0,3) and (3,0).
    - numpy raises where the shapes of two operands disagree or an index is
      out of range; the operations below are total, and the statements about
      them carry the shapes as hypotheses ([cloud 3], [cloud 4]).
    - An [ndarray] carries no dtype.  The one place of the source where the
      dtype of an array decides a value is [np.zeros_like] of the cloud,
      followed by assignments that cast: [rect_cloud_dt], [velo_fov_dt] and
      [get_frustum_proposal_dt] take the dtype of the cloud as a parameter;
      [rect_cloud], [velo_fov] and [get_frustum_proposal] are their
      instances for a float64 cloud.
    - A raising statement is a result in [exn]; [result A] is [A + exn].
    - The [print] calls of [get_frustum_proposal] write to stdout only and
      are left out. *)

From Stdlib Require Import QArith Qfield Lia.
From stdpp Require Import base option list gmap strings.

Local Open Scope Q_scope.
Local Open Scope string_scope.

(** ** Exceptions and results *)

(** The exception classes.  [AssertionError], [KeyError] and [ValueError] are
    raised by [__init__] (the [assert], a missing dictionary key, a
    [np.reshape] of a buffer of the wrong size); [LinAlgError] by
    [np.linalg.inv].  [InvalidCalibration] is the class the specification
    names; no statement of the source raises it. *)
Inductive exn : Type :=
  | AssertionError
  | KeyError (key : string)
  | ValueError
  | LinAlgError
  | InvalidCalibration.

Definition result (A : Type) : Type := (A + exn)%type.

Definition ok {A} (a : A) : result A := inl a.
Definition raise {A} (e : exn) : result A := inr e.

Definition bind {A B} (m : result A) (k : A → result B) : result B :=
  match m with
  | inl a => k a
  | inr e => inr e
  end.

Notation "'let!' x ':=' m 'in' k" := (bind m (λ x, k))
  (at level 10, x name, m at level 100, k at level 200, only parsing).

(** ** Python truthiness: the operands of [and] *)

Inductive pyval : Type :=
  | PyStr (s : string)
  | PyBool (b : bool).

Definition truthy (v : pyval) : bool :=
  match v with
  | PyStr s => negb (String.eqb s "")
  | PyBool b => b
  end.

(** [a and b] evaluates to [a] when [a] is falsy and to [b] otherwise. *)
Definition py_and (a b : pyval) : pyval := if truthy a then b else a.

(** [assert v] *)
Definition py_assert (v : pyval) : result unit :=
  if truthy v then ok tt else raise AssertionError.

(** [d[k]] on a dictionary *)
Definition getitem {V} (d : gmap string V) (k : string) : result V :=
  match d !! k with
  | Some v => ok v
  | None => raise (KeyError k)
  end.

(** [k in d] *)
Definition contains {V} (d : gmap string V) (k : string) : bool :=
  bool_decide (is_Some (d !! k)).

(** ** Arrays *)

Record ndarray : Type := NdArray { ncols : nat; rows : list (list Q) }.

Definition nrows (a : ndarray) : nat := length (rows a).

(** Entry [j] of a row; [0] stands for an entry that is not there. *)
Definition entry (j : nat) (r : list Q) : Q := nth j r 0.

(** [a[:, j]] *)
Definition column (j : nat) (a : ndarray) : list Q := map (entry j) (rows a).

(** The rows of an array all have its column count. *)
Definition shaped (a : ndarray) : Prop :=
  Forall (λ r, length r = ncols a) (rows a).

(** [np.reshape(buf, [r, c])] of a flat buffer, row-major: a [ValueError]
    unless the buffer has [r * c] elements. *)
Fixpoint chunks (c r : nat) (buf : list Q) : list (list Q) :=
  match r with
  | O => []
  | S r' => take c buf :: chunks c r' (drop c buf)
  end.

Definition reshape (buf : list Q) (r c : nat) : result ndarray :=
  if Nat.eqb (length buf) (r * c)
  then ok (NdArray c (chunks c r buf))
  else raise ValueError.

(** [np.transpose(a)] *)
Definition transpose (a : ndarray) : ndarray :=
  NdArray (nrows a) (map (λ j, column j a) (seq 0 (ncols a))).

Definition dotprod (u v : list Q) : Q :=
  foldr Qplus 0 (zip_with Qmult u v).

(** [np.dot(a, b)] of two 2-D arrays.  (numpy raises [ValueError] unless
    the column count of [a] is the row count of [b]; [dotprod] stops at the
    shorter operand.  The shapes agree wherever a statement below relies on
    [dot].) *)
Definition dot (a b : ndarray) : ndarray :=
  NdArray (ncols b)
    (map (λ r, map (λ j, dotprod r (column j b)) (seq 0 (ncols b))) (rows a)).

(** [np.dot(a, v)] of a 2-D array and a 1-D array *)
Definition dot_vec (a : ndarray) (v : list Q) : list Q :=
  map (λ r, dotprod r v) (rows a).

(** [-a] *)
Definition neg (a : ndarray) : ndarray :=
  NdArray (ncols a) (map (map Qopp) (rows a)).

(** [np.zeros_like(a)] *)
Definition zeros_like (a : ndarray) : ndarray :=
  NdArray (ncols a) (map (map (λ _, 0)) (rows a)).

(** [a[0:3, 0:3]] *)
Definition block33 (a : ndarray) : ndarray :=
  NdArray (Nat.min 3 (ncols a)) (map (take 3) (take 3 (rows a))).

(** [a[0:3, 3]] *)
Definition col3_of_3 (a : ndarray) : list Q := map (entry 3) (take 3 (rows a)).

(** [a[:, 0:3]] *)
Definition cols03 (a : ndarray) : ndarray :=
  NdArray (Nat.min 3 (ncols a)) (map (take 3) (rows a)).

(** [a[:, 3]]  (numpy raises [IndexError] on an array of fewer than four
    columns; the statements about the extraction assume an [n x 4] cloud.) *)
Definition col3 (a : ndarray) : list Q := column 3 a.

(** Assignment to the first three entries of a row. *)
Definition set_row03 (r new : list Q) : list Q := (new ++ drop 3 r)%list.

(** [a[0:3, 0:3] = b] and [a[:, 0:3] = b]: row [i] of [b] replaces the first
    three entries of row [i] of [a].  (numpy raises when the shapes of the
    two sides disagree; they agree at every assignment of the source.) *)
Fixpoint assign_rows {B} (f : list Q → B → list Q)
    (a : list (list Q)) (b : list B) : list (list Q) :=
  match a, b with
  | r :: a', s :: b' => f r s :: assign_rows f a' b'
  | _, _ => a
  end.

Definition set_cols03 (a b : ndarray) : ndarray :=
  NdArray (ncols a) (assign_rows set_row03 (rows a) (rows b)).

(** [a[0:3, 3] = v] and [a[:, 3] = v] *)
Definition set_col3 (a : ndarray) (v : list Q) : ndarray :=
  NdArray (ncols a) (assign_rows (λ r x, <[3%nat := x]> r) (rows a) v).

(** [a[mask, :]]: the rows whose mask entry is [True], in their order. *)
Fixpoint select {A} (mask : list bool) (l : list A) : list A :=
  match mask, l with
  | b :: mask', x :: l' => if b then x :: select mask' l' else select mask' l'
  | _, _ => []
  end.

Definition take_mask (mask : list bool) (a : ndarray) : ndarray :=
  NdArray (ncols a) (select mask (rows a)).

(** [np.linalg.inv] of a 3x3 array (numpy library code): the inverse, by the
    adjugate over the determinant, and [LinAlgError] for a singular array or
    one that is not 3x3.  This is numpy's behaviour in exact arithmetic: the
    floating-point factorisation finds a matrix singular only when a pivot
    is exactly zero, so it can return on a singular matrix.  No statement
    below relies on the raise. *)
Definition det3 (a b c d e f g h i : Q) : Q :=
  a * (e * i - f * h) - b * (d * i - f * g) + c * (d * h - e * g).

Definition inv (m : ndarray) : result ndarray :=
  match rows m with
  | [[a; b; c]; [d; e; f]; [g; h; i]] =>
      let dt := det3 a b c d e f g h i in
      if Qeq_bool dt 0 then raise LinAlgError
      else ok (NdArray 3
        [[(e * i - f * h) / dt; (c * h - b * i) / dt; (b * f - c * e) / dt];
         [(f * g - d * i) / dt; (a * i - c * g) / dt; (c * d - a * f) / dt];
         [(d * h - e * g) / dt; (b * g - a * h) / dt; (a * e - b * d) / dt]])
  | _ => raise LinAlgError
  end.

(** ** Values of the perspective divide *)

Inductive xval : Type :=
  | Fin (q : Q)
  | PInf
  | NInf
  | NaN.

(** [a / b] on float64: a nonzero number over zero is an infinity, zero over
    zero is [nan].  The sign of a float zero is not modelled: it decides
    between the two infinities only, and each of them fails one of the two
    comparisons made on its column. *)
Definition xdiv (a b : Q) : xval :=
  if Qeq_bool b 0 then
    match Qcompare a 0 with
    | Eq => NaN
    | Gt => PInf
    | Lt => NInf
    end
  else Fin (a / b).

Definition Qltb (x y : Q) : bool := negb (Qle_bool y x).

(** [v < b] and [v >= b] against a number [b]; every comparison with [nan]
    is [False]. *)
Definition xltb (v : xval) (b : Q) : bool :=
  match v with
  | Fin q => Qltb q b
  | PInf => false
  | NInf => true
  | NaN => false
  end.

Definition xgeb (v : xval) (b : Q) : bool :=
  match v with
  | Fin q => Qle_bool b q
  | PInf => true
  | NInf => false
  | NaN => false
  end.

Definition xentry (j : nat) (r : list xval) : xval := nth j r NaN.

(** ** The class [FrustumProposal] *)

Record FrustumProposal : Type := Engine {
  P : ndarray;
  V2C : ndarray;
  C2V : ndarray;
  R0 : ndarray
}.

Definition inverse_rigid_trans (Tr : ndarray) : ndarray :=
  let inv_Tr := zeros_like Tr in
  let inv_Tr := set_cols03 inv_Tr (transpose (block33 Tr)) in
  let inv_Tr :=
    set_col3 inv_Tr (dot_vec (neg (transpose (block33 Tr))) (col3_of_3 Tr)) in
  inv_Tr.

(** The expression of the [assert] of [__init__]:
    ['P' and 'Tr_velo_to_cam' and 'R0_rect' in calibs]. *)
Definition init_assertion (calibs : gmap string (list Q)) : pyval :=
  py_and (py_and (PyStr "P") (PyStr "Tr_velo_to_cam"))
         (PyBool (contains calibs "R0_rect")).

Definition init (calibs : gmap string (list Q)) : result FrustumProposal :=
  let! _ := py_assert (init_assertion calibs) in
  let! p := getitem calibs "P" in
  let! p := reshape p 3 4 in
  let! v2c := getitem calibs "Tr_velo_to_cam" in
  let! v2c := reshape v2c 3 4 in
  let c2v := inverse_rigid_trans v2c in
  let! r0 := getitem calibs "R0_rect" in
  let! r0 := reshape r0 3 3 in
  ok (Engine p v2c c2v r0).

Section Methods.

Variable self : FrustumProposal.

Definition _cart2hom (pts_3d : ndarray) : ndarray :=
  NdArray (ncols pts_3d + 1) (map (λ r, (r ++ [1])%list) (rows pts_3d)).

Definition _project_velo_to_ref (pts_3d_velo : ndarray) : ndarray :=
  let pts_3d_velo := _cart2hom pts_3d_velo in
  dot pts_3d_velo (transpose (V2C self)).

Definition _project_ref_to_velo (pts_3d_ref : ndarray) : ndarray :=
  let pts_3d_ref := _cart2hom pts_3d_ref in
  dot pts_3d_ref (transpose (C2V self)).

Definition _project_rect_to_ref (pts_3d_rect : ndarray) : result ndarray :=
  let! r0_inv := inv (R0 self) in
  ok (transpose (dot r0_inv (transpose pts_3d_rect))).

Definition _project_ref_to_rect (pts_3d_ref : ndarray) : ndarray :=
  transpose (dot (R0 self) (transpose pts_3d_ref)).

Definition project_rect_to_velo (pts_3d_rect : ndarray) : result ndarray :=
  let! pts_3d_ref := _project_rect_to_ref pts_3d_rect in
  ok (_project_ref_to_velo pts_3d_ref).

Definition _project_velo_to_rect (pts_3d_velo : ndarray) : ndarray :=
  let pts_3d_ref := _project_velo_to_ref pts_3d_velo in
  _project_ref_to_rect pts_3d_ref.

(** The two in-place divisions by column 2 and the slice [[:, 0:2]]. *)
Definition _project_rect_to_image (pts_3d_rect : ndarray) : list (list xval) :=
  let pts_3d_rect := _cart2hom pts_3d_rect in
  let pts_2d := dot pts_3d_rect (transpose (P self)) in
  map (λ r, [xdiv (entry 0 r) (entry 2 r); xdiv (entry 1 r) (entry 2 r)])
      (rows pts_2d).

Definition _project_velo_to_image (pts_3d_velo : ndarray) : list (list xval) :=
  let pts_3d_rect := _project_velo_to_rect pts_3d_velo in
  _project_rect_to_image pts_3d_rect.

(** The mask
    [(pts_2d[:,0] < xmax) & (pts_2d[:,0] >= xmin) &
     (pts_2d[:,1] < ymax) & (pts_2d[:,1] >= ymin)]. *)
Definition in_box (xmin ymin xmax ymax : Q) (r : list xval) : bool :=
  xltb (xentry 0 r) xmax && xgeb (xentry 0 r) xmin
  && xltb (xentry 1 r) ymax && xgeb (xentry 1 r) ymin.

Definition box_mask (pts_2d : list (list xval)) (xmin ymin xmax ymax : Q)
    : list bool :=
  map (in_box xmin ymin xmax ymax) pts_2d.

(** What [_get_lidar_in_image_fov] returns: one array, or three values when
    [return_more] is set. *)
Inductive fov_result : Type :=
  | FovOnly (imgfov_pc_velo : ndarray)
  | FovMore (imgfov_pc_velo : ndarray) (pts_2d : list (list xval))
            (fov_inds : list bool).

Definition default_clip_distance : Q := 2.

Definition _get_lidar_in_image_fov (pc_velo : ndarray)
    (xmin ymin xmax ymax : Q) (return_more : bool) (clip_distance : Q)
    : fov_result :=
  let pts_2d := _project_velo_to_image pc_velo in
  let fov_inds := box_mask pts_2d xmin ymin xmax ymax in
  let fov_inds :=
    zip_with andb fov_inds (map (λ x, Qltb clip_distance x) (column 0 pc_velo)) in
  let imgfov_pc_velo := take_mask fov_inds pc_velo in
  if return_more then FovMore imgfov_pc_velo pts_2d fov_inds
  else FovOnly imgfov_pc_velo.

(** [pc_rect], lines 144-146 of the source. *)
Definition rect_cloud (pc_velo : ndarray) : ndarray :=
  let pc_rect := zeros_like pc_velo in
  let pc_rect := set_cols03 pc_rect (_project_velo_to_rect (cols03 pc_velo)) in
  set_col3 pc_rect (col3 pc_velo).

(** [box_fov_inds], lines 150-154. *)
Definition box_fov_inds (pc_image_coord : list (list xval))
    (img_fov_inds : list bool) (box2d : Q * Q * Q * Q) : list bool :=
  let '(xmin, ymin, xmax, ymax) := box2d in
  zip_with andb (box_mask pc_image_coord xmin ymin xmax ymax) img_fov_inds.

(** [pc_in_velo_fov], lines 157-159. *)
Definition velo_fov (pc_in_box_fov : ndarray) : result ndarray :=
  let pc_in_velo_fov := zeros_like pc_in_box_fov in
  let! xyz := project_rect_to_velo (cols03 pc_in_box_fov) in
  let pc_in_velo_fov := set_cols03 pc_in_velo_fov xyz in
  ok (set_col3 pc_in_velo_fov (col3 pc_in_box_fov)).

(** The loop over the boxes, with the two lists it appends to. *)
Fixpoint proposal_loop (pc_rect : ndarray) (pc_image_coord : list (list xval))
    (img_fov_inds : list bool) (boxes2d : list (Q * Q * Q * Q))
    (frustum_proposals frustum_proposals_velo : list ndarray)
    : result (list ndarray * list ndarray) :=
  match boxes2d with
  | [] => ok (frustum_proposals, frustum_proposals_velo)
  | box2d :: rest =>
      let inds := box_fov_inds pc_image_coord img_fov_inds box2d in
      let pc_in_box_fov := take_mask inds pc_rect in
      let! pc_in_velo_fov := velo_fov pc_in_box_fov in
      proposal_loop pc_rect pc_image_coord img_fov_inds rest
        (frustum_proposals ++ [pc_in_box_fov])%list
        (frustum_proposals_velo ++ [pc_in_velo_fov])%list
  end.

Definition get_frustum_proposal (img_shape : Z * Z * Z)
    (boxes2d : list (Q * Q * Q * Q)) (pc_velo : ndarray)
    : result (list ndarray * list ndarray) :=
  let '(img_height, img_width, _) := img_shape in
  match _get_lidar_in_image_fov (cols03 pc_velo) 0 0
          (inject_Z img_width) (inject_Z img_height) true
          default_clip_distance with
  | FovMore _ pc_image_coord img_fov_inds =>
      let pc_rect := rect_cloud pc_velo in
      proposal_loop pc_rect pc_image_coord img_fov_inds boxes2d [] []
  | FovOnly _ => raise ValueError
  end.

End Methods.

(** ** The dtype of the cloud *)

Inductive dtype : Type :=
  | Float64
  | Int64.

(** The cast of an assignment into an array of dtype [dt]: to an integer
    dtype numpy truncates toward zero. *)
Definition cast (dt : dtype) (x : Q) : Q :=
  match dt with
  | Float64 => x
  | Int64 => inject_Z (Z.quot (Qnum x) (Z.pos (Qden x)))
  end.

(** [a[:, 0:3] = b] and [a[:, 3] = v] on an array [a] of dtype [dt]. *)
Definition set_cols03_dt (dt : dtype) (a b : ndarray) : ndarray :=
  NdArray (ncols a)
    (assign_rows (λ r new, set_row03 r (map (cast dt) new)) (rows a) (rows b)).

Definition set_col3_dt (dt : dtype) (a : ndarray) (v : list Q) : ndarray :=
  NdArray (ncols a)
    (assign_rows (λ r x, <[3%nat := cast dt x]> r) (rows a) v).

Section MethodsDtype.

Variable self : FrustumProposal.

(** The dtype of [pc_velo], which [np.zeros_like] gives to [pc_rect] and,
    through [pc_in_box_fov], to [pc_in_velo_fov]. *)
Variable dt : dtype.

(** [pc_rect], lines 144-146. *)
Definition rect_cloud_dt (pc_velo : ndarray) : ndarray :=
  let pc_rect := zeros_like pc_velo in
  let pc_rect :=
    set_cols03_dt dt pc_rect (_project_velo_to_rect self (cols03 pc_velo)) in
  set_col3_dt dt pc_rect (col3 pc_velo).

(** [pc_in_velo_fov], lines 157-159. *)
Definition velo_fov_dt (pc_in_box_fov : ndarray) : result ndarray :=
  let pc_in_velo_fov := zeros_like pc_in_box_fov in
  let! xyz := project_rect_to_velo self (cols03 pc_in_box_fov) in
  let pc_in_velo_fov := set_cols03_dt dt pc_in_velo_fov xyz in
  ok (set_col3_dt dt pc_in_velo_fov (col3 pc_in_box_fov)).

Fixpoint proposal_loop_dt (pc_rect : ndarray)
    (pc_image_coord : list (list xval)) (img_fov_inds : list bool)
    (boxes2d : list (Q * Q * Q * Q))
    (frustum_proposals frustum_proposals_velo : list ndarray)
    : result (list ndarray * list ndarray) :=
  match boxes2d with
  | [] => ok (frustum_proposals, frustum_proposals_velo)
  | box2d :: rest =>
      let inds := box_fov_inds pc_image_coord img_fov_inds box2d in
      let pc_in_box_fov := take_mask inds pc_rect in
      let! pc_in_velo_fov := velo_fov_dt pc_in_box_fov in
      proposal_loop_dt pc_rect pc_image_coord img_fov_inds rest
        (frustum_proposals ++ [pc_in_box_fov])%list
        (frustum_proposals_velo ++ [pc_in_velo_fov])%list
  end.

Definition get_frustum_proposal_dt (img_shape : Z * Z * Z)
    (boxes2d : list (Q * Q * Q * Q)) (pc_velo : ndarray)
    : result (list ndarray * list ndarray) :=
  let '(img_height, img_width, _) := img_shape in
  match _get_lidar_in_image_fov self (cols03 pc_velo) 0 0
          (inject_Z img_width) (inject_Z img_height) true
          default_clip_distance with
  | FovMore _ pc_image_coord img_fov_inds =>
      let pc_rect := rect_cloud_dt pc_velo in
      proposal_loop_dt pc_rect pc_image_coord img_fov_inds boxes2d [] []
  | FovOnly _ => raise ValueError
  end.

End MethodsDtype.

(** ** Notions the properties are stated with *)

(** Equality of arrays up to the equality of rationals. *)
Definition row_eq (u v : list Q) : Prop := Forall2 Qeq u v.

Definition arr_eq (a b : ndarray) : Prop :=
  ncols a = ncols b ∧ Forall2 row_eq (rows a) (rows b).

(** An [n x c] array. *)
Definition cloud (c : nat) (a : ndarray) : Prop := ncols a = c ∧ shaped a.

Definition eye3 : ndarray := NdArray 3 [[1; 0; 0]; [0; 1; 0]; [0; 0; 1]].

(** [Tr = [R|t]] is rigid: the rotation block [R] is orthonormal,
    [R^T R = I]. *)
Definition rigid (Tr : ndarray) : Prop :=
  arr_eq (dot (transpose (block33 Tr)) (block33 Tr)) eye3.

Definition det (m : ndarray) : Q :=
  match rows m with
  | [[a; b; c]; [d; e; f]; [g; h; i]] => det3 a b c d e f g h i
  | _ => 0
  end.

Definition invertible (m : ndarray) : Prop := ¬ det m == 0.

(** A matrix applied to one point, and to one homogenized point. *)
Definition mat_vec (m : ndarray) (p : list Q) : list Q :=
  map (λ mr, dotprod mr p) (rows m).

Definition affine (m : ndarray) (p : list Q) : list Q :=
  map (λ mr, dotprod (p ++ [1])%list mr) (rows m).

(** The image coordinates of one sensor-frame point. *)
Definition pixel (self : FrustumProposal) (p : list Q) : list xval :=
  let q := affine (P self) (mat_vec (R0 self) (affine (V2C self) p)) in
  [xdiv (entry 0 q) (entry 2 q); xdiv (entry 1 q) (entry 2 q)].

(** One row of [pc_rect], from the row of [pc_velo]. *)
Definition rect_row (self : FrustumProposal) (r : list Q) : list Q :=
  (mat_vec (R0 self) (affine (V2C self) (take 3 r)) ++ [entry 3 r])%list.

(** One row of [pc_in_velo_fov], from the row of [pc_in_box_fov]; [r0_inv]
    is [np.linalg.inv(R0)]. *)
Definition velo_row (self : FrustumProposal) (r0_inv : ndarray) (r : list Q)
    : list Q :=
  (affine (C2V self) (mat_vec r0_inv (take 3 r)) ++ [entry 3 r])%list.




(** The 3x4 and 3x3 arrays, from their entries. *)
Definition array34 (r11 r12 r13 t1 r21 r22 r23 t2 r31 r32 r33 t3 : Q)
    : ndarray :=
  NdArray 4 [[r11; r12; r13; t1]; [r21; r22; r23; t2]; [r31; r32; r33; t3]].

Definition array33 (a b c d e f g h i : Q) : ndarray :=
  NdArray 3 [[a; b; c]; [d; e; f]; [g; h; i]].

(** The test a cloud row passes to be in the frustum of a box: its
    projection is in the box and in the image, and its first coordinate is
    beyond the default clip distance. *)
Definition in_frustum (self : FrustumProposal) (img_shape : Z * Z * Z)
    (box2d : Q * Q * Q * Q) (p : list Q) : bool :=
  let '(img_height, img_width, _) := img_shape in
  let '(xmin, ymin, xmax, ymax) := box2d in
  let uv := pixel self (take 3 p) in
  in_box xmin ymin xmax ymax uv
  && (in_box 0 0 (inject_Z img_width) (inject_Z img_height) uv
      && Qltb default_clip_distance (entry 0 p)).

(** The calibration buffers of a constructed object. *)
Definition calibrated (calibs : gmap string (list Q)) (p v r : list Q) : Prop :=
  calibs !! "P"%string = Some p ∧ calibs !! "Tr_velo_to_cam"%string = Some v
  ∧ calibs !! "R0_rect"%string = Some r
  ∧ length p = 12%nat ∧ length v = 12%nat ∧ length r = 9%nat.

Definition engine_of (p v r : list Q) : FrustumProposal :=
  Engine (NdArray 4 (chunks 4 3 p)) (NdArray 4 (chunks 4 3 v))
         (inverse_rigid_trans (NdArray 4 (chunks 4 3 v)))
         (NdArray 3 (chunks 3 3 r)).

(** ** Concrete inputs *)

(** A calibration with a rigid [Tr_velo_to_cam] (sensor x forward, camera z
    forward) and an invertible [R0_rect]. *)
Definition calibs_ok : gmap string (list Q) :=
  <["P"%string := [7; 0; 3; 1;  0; 7; 2; 0;  0; 0; 1; 0]]>
  (<["Tr_velo_to_cam"%string :=
       [0; -1; 0; 1 # 2;  0; 0; -1; 1;  1; 0; 0; 0]]>
  (<["R0_rect"%string :=
       [3 # 5; -4 # 5; 0;  4 # 5; 3 # 5; 0;  0; 0; 1]]> ∅)).

Definition engine_ok : FrustumProposal :=
  engine_of [7; 0; 3; 1;  0; 7; 2; 0;  0; 0; 1; 0]
            [0; -1; 0; 1 # 2;  0; 0; -1; 1;  1; 0; 0; 0]
            [3 # 5; -4 # 5; 0;  4 # 5; 3 # 5; 0;  0; 0; 1].

Definition cloud_ok : ndarray :=
  NdArray 4 [[5; 1; 2; 1]; [3; -1; 7; 1 # 2]; [1; 1; 4; 9]; [2; 0; 0; 3];
             [10; 2; -3; 7]; [4; 1 # 2; 1; 0]].

Definition points_ok : ndarray := cols03 cloud_ok.



Definition boxes_ok : list (Q * Q * Q * Q) :=
  [(0, 0, 50, 50); (-10, -10, 0, 0); (0, 0, 5, 20)].

(** A cloud of integer dtype, with one point. *)
Definition cloud_int : ndarray := NdArray 4 [[5; 1; 2; 1]].

(** The calibration of the specification's scenario, its cloud and box. *)
Definition calibs_identity : gmap string (list Q) :=
  <["P"%string := [1; 0; 0; 0;  0; 1; 0; 0;  0; 0; 1; 0]]>
  (<["Tr_velo_to_cam"%string := [1; 0; 0; 0;  0; 1; 0; 0;  0; 0; 1; 0]]>
  (<["R0_rect"%string := [1; 0; 0;  0; 1; 0;  0; 0; 1]]> ∅)).

Definition engine_identity : FrustumProposal :=
  engine_of [1; 0; 0; 0;  0; 1; 0; 0;  0; 0; 1; 0]
            [1; 0; 0; 0;  0; 1; 0; 0;  0; 0; 1; 0]
            [1; 0; 0;  0; 1; 0;  0; 0; 1].

Definition cloud_scenario : ndarray := NdArray 4 [[5; 0; 0; 1]].


(** A calibration without [Tr_velo_to_cam] whose [P] has 11 values. *)
Definition calibs_short_P_no_Tr : gmap string (list Q) :=
  <["P"%string := [1; 0; 0; 0;  0; 1; 0; 0;  0; 0; 1]]>
  (<["R0_rect"%string := [1; 0; 0;  0; 1; 0;  0; 0; 1]]> ∅).

(** A calibration with [R0_rect] only. *)
Definition calibs_R0_only : gmap string (list Q) :=
  <["R0_rect"%string := [1; 0; 0;  0; 1; 0;  0; 0; 1]]> ∅.

(** ** Tactics *)

(** A goal [row_eq [a; b; c] [a'; b'; c']], entry by entry. *)
Ltac row3 :=
  unfold row_eq;
  apply List.Forall2_cons; [|apply List.Forall2_cons;
    [|apply List.Forall2_cons; [|apply List.Forall2_nil]]].

(** A closed comparison of rationals. *)
Ltac qdec := vm_compute; first [reflexivity | discriminate].

(** A closed list of closed equalities. *)
Ltac rows_eq :=
  repeat match goal with
  | |- Forall2 _ [] [] => apply List.Forall2_nil
  | |- Forall2 _ (_ :: _) (_ :: _) => apply List.Forall2_cons
  | |- Forall _ [] => apply List.Forall_nil
  | |- Forall _ (_ :: _) => apply List.Forall_cons
  | |- _ = _ => reflexivity
  end.

(** ** Lists and arrays *)

Lemma entry_lookup (j : nat) (r : list Q) (x : Q) :
  r !! j = Some x → entry j r = x.
Proof. intros H. unfold entry. by rewrite (nth_lookup_Some _ _ _ _ H). Qed.

Lemma entry_map_seq (g : nat → Q) (n i : nat) :
  (i < n)%nat → entry i (map g (seq 0 n)) = g i.
Proof.
  intros Hi. apply entry_lookup.
  change (map g (seq 0 n)) with (g <$> seq 0 n).
  rewrite list_lookup_fmap, lookup_seq_lt by done. done.
Qed.

Lemma row_rebuild (p : list Q) (c : nat) :
  length p = c → map (λ j, entry j p) (seq 0 c) = p.
Proof.
  intros <-. apply list_eq. intros i.
  change (map (λ j, entry j p) (seq 0 (length p)))
    with ((λ j, entry j p) <$> seq 0 (length p)).
  rewrite list_lookup_fmap.
  destruct (decide (i < length p)%nat) as [Hi|Hi].
  - rewrite lookup_seq_lt by done. simpl.
    destruct (lookup_lt_is_Some_2 p i Hi) as [x Hx].
    by rewrite Hx, (entry_lookup _ _ _ Hx).
  - rewrite lookup_seq_ge by lia. simpl.
    symmetry. apply lookup_ge_None. lia.
Qed.

Lemma map_seq_rows {A B} (f : list A → B) (l : list (list A)) :
  map (λ i, f (nth i l [])) (seq 0 (length l)) = map f l.
Proof.
  apply list_eq. intros i.
  change (map (λ i, f (nth i l [])) (seq 0 (length l)))
    with ((λ i, f (nth i l [])) <$> seq 0 (length l)).
  change (map f l) with (f <$> l).
  rewrite !list_lookup_fmap.
  destruct (decide (i < length l)%nat) as [Hi|Hi].
  - rewrite lookup_seq_lt by done. simpl.
    destruct (lookup_lt_is_Some_2 l i Hi) as [x Hx].
    by rewrite Hx, (nth_lookup_Some _ _ _ _ Hx).
  - rewrite lookup_seq_ge by lia. simpl.
    rewrite (proj2 (lookup_ge_None l i)) by lia. done.
Qed.

(** Column [i] of the transpose is row [i]. *)
Lemma column_transpose (a : ndarray) (i : nat) (p : list Q) :
  rows a !! i = Some p → length p = ncols a →
  column i (transpose a) = p.
Proof.
  intros Hp Hlen. unfold column, transpose. simpl.
  rewrite map_map.
  rewrite <- (row_rebuild p (ncols a) Hlen) at 1.
  apply map_ext_in. intros j Hj. apply in_seq in Hj.
  unfold column. apply entry_lookup.
  change (map (entry j) (rows a)) with (entry j <$> rows a).
  by rewrite list_lookup_fmap, Hp.
Qed.

(** [np.transpose(np.dot(m, np.transpose(pts)))] applies [m] to every row of
    [pts]. *)
Lemma transpose_dot_transpose (m pts : ndarray) :
  shaped pts →
  transpose (dot m (transpose pts))
  = NdArray (nrows m) (map (mat_vec m) (rows pts)).
Proof.
  intros Hs. unfold transpose at 1. f_equal.
  - unfold nrows, dot. simpl. by rewrite length_map.
  - change (ncols (dot m (transpose pts))) with (nrows pts).
    unfold nrows. rewrite <- (map_seq_rows (mat_vec m)).
    apply map_ext_in. intros i Hi. apply in_seq in Hi.
    destruct (lookup_lt_is_Some_2 (rows pts) i ltac:(lia)) as [p Hp].
    rewrite (nth_lookup_Some _ _ _ _ Hp).
    unfold column, dot, mat_vec. simpl. rewrite map_map.
    apply map_ext. intros mr.
    rewrite entry_map_seq by (unfold nrows; lia).
    f_equal. apply column_transpose; [done|].
    unfold shaped in Hs. rewrite Forall_lookup in Hs. by apply (Hs i).
Qed.

(** [np.dot(_cart2hom(pts), np.transpose(m))] applies [m] to every
    homogenized row of [pts]. *)
Lemma dot_hom_transpose (m pts : ndarray) :
  shaped m →
  dot (_cart2hom pts) (transpose m)
  = NdArray (nrows m) (map (affine m) (rows pts)).
Proof.
  intros Hs. unfold dot. simpl. f_equal.
  rewrite map_map. apply map_ext. intros p.
  unfold affine. rewrite <- (map_seq_rows (dotprod (p ++ [1]))).
  apply map_ext_in. intros j Hj. apply in_seq in Hj.
  destruct (lookup_lt_is_Some_2 (rows m) j ltac:(unfold nrows in Hj; lia))
    as [mr Hmr].
  rewrite (nth_lookup_Some _ _ _ _ Hmr). f_equal.
  apply column_transpose; [done|].
  unfold shaped in Hs. rewrite Forall_lookup in Hs. by apply (Hs j).
Qed.

(** ** Construction *)

Lemma init_assertion_truthy (calibs : gmap string (list Q)) :
  truthy (init_assertion calibs) = contains calibs "R0_rect".
Proof. reflexivity. Qed.

(** What [__init__] does, case by case, in the order of its statements. *)
Lemma init_cases (calibs : gmap string (list Q)) :
  init calibs =
  match calibs !! "R0_rect"%string with
  | None => raise AssertionError
  | Some r =>
    match calibs !! "P"%string with
    | None => raise (KeyError "P")
    | Some p =>
      if negb (Nat.eqb (length p) 12) then raise ValueError else
      match calibs !! "Tr_velo_to_cam"%string with
      | None => raise (KeyError "Tr_velo_to_cam")
      | Some v =>
        if negb (Nat.eqb (length v) 12) then raise ValueError else
        if negb (Nat.eqb (length r) 9) then raise ValueError else
        ok (engine_of p v r)
      end
    end
  end.
Proof.
  unfold init, py_assert. rewrite init_assertion_truthy.
  unfold contains, getitem, reshape.
  destruct (calibs !! "R0_rect"%string) as [r|] eqn:Hr.
  - rewrite bool_decide_eq_true_2 by eauto. simpl.
    destruct (calibs !! "P"%string) as [p|]; simpl; [|done].
    destruct (Nat.eqb (length p) 12); simpl; [|done].
    destruct (calibs !! "Tr_velo_to_cam"%string) as [v|]; simpl; [|done].
    destruct (Nat.eqb (length v) 12); simpl; [|done].
    destruct (Nat.eqb (length r) 9); simpl; done.
  - rewrite bool_decide_eq_false_2 by (intros [? ?]; done). done.
Qed.

Lemma init_ok (calibs : gmap string (list Q)) (p v r : list Q) :
  calibrated calibs p v r → init calibs = inl (engine_of p v r).
Proof.
  intros (Hp & Hv & Hr & Lp & Lv & Lr).
  rewrite init_cases, Hr, Hp, Hv, Lp, Lv, Lr. done.
Qed.

Lemma init_inv (calibs : gmap string (list Q)) (eng : FrustumProposal) :
  init calibs = inl eng →
  ∃ p v r, calibrated calibs p v r ∧ eng = engine_of p v r.
Proof.
  rewrite init_cases.
  destruct (calibs !! "R0_rect"%string) as [r|] eqn:Hr; [|done].
  destruct (calibs !! "P"%string) as [p|] eqn:Hp; [|done].
  destruct (Nat.eqb (length p) 12) eqn:Lp; simpl; [|done].
  destruct (calibs !! "Tr_velo_to_cam"%string) as [v|] eqn:Hv; [|done].
  destruct (Nat.eqb (length v) 12) eqn:Lv; simpl; [|done].
  destruct (Nat.eqb (length r) 9) eqn:Lr; simpl; [|done].
  intros [= <-]. exists p, v, r.
  apply Nat.eqb_eq in Lp, Lv, Lr. done.
Qed.

Section RigidRow.

Variables r11 r12 r13 t1 r21 r22 r23 t2 r31 r32 r33 t3 : Q.

Local Abbreviation Tr :=
  (array34 r11 r12 r13 t1 r21 r22 r23 t2 r31 r32 r33 t3).

(** [inverse_rigid_trans [R|t]] is [[R^T | -R^T t]]. *)
Lemma inverse_rigid_trans_entries :
  inverse_rigid_trans Tr
  = array34 r11 r21 r31 (- r11 * t1 + (- r21 * t2 + (- r31 * t3 + 0)))
            r12 r22 r32 (- r12 * t1 + (- r22 * t2 + (- r32 * t3 + 0)))
            r13 r23 r33 (- r13 * t1 + (- r23 * t2 + (- r33 * t3 + 0))).
Proof. reflexivity. Qed.

Lemma rigid_entries :
  rigid Tr →
  r11 * r11 + r21 * r21 + r31 * r31 == 1 ∧
  r11 * r12 + r21 * r22 + r31 * r32 == 0 ∧
  r11 * r13 + r21 * r23 + r31 * r33 == 0 ∧
  r12 * r12 + r22 * r22 + r32 * r32 == 1 ∧
  r12 * r13 + r22 * r23 + r32 * r33 == 0 ∧
  r13 * r13 + r23 * r23 + r33 * r33 == 1.
Proof.
  intros [_ H]. cbv [array34 rigid dot transpose block33 column nrows rows ncols
    take map seq entry nth dotprod zip_with foldr length Nat.min eye3] in H.
  repeat match goal with
  | H : Forall2 _ (_ :: _) (_ :: _) |- _ =>
      apply Forall2_cons_1 in H; destruct H
  end.
  unfold row_eq in *.
  repeat match goal with
  | H : Forall2 _ (_ :: _) (_ :: _) |- _ =>
      apply Forall2_cons_1 in H; destruct H
  end.
  repeat split;
    match goal with
    | H : ?y == ?c |- _ == ?c => transitivity y; [ring | exact H]
    end.
Qed.

Lemma rigid_roundtrip_row (x y z : Q) :
  rigid Tr →
  row_eq (affine (inverse_rigid_trans Tr) (affine Tr [x; y; z])) [x; y; z].
Proof.
  intros H. destruct (rigid_entries H) as (H11 & H12 & H13 & H22 & H23 & H33).
  cbv [array34 affine inverse_rigid_trans zeros_like set_cols03 set_col3
    assign_rows set_row03 dot_vec neg col3_of_3 transpose block33 column
    nrows rows ncols take drop map seq entry nth dotprod zip_with foldr
    length Nat.min app list_insert insert].
  row3.
  - transitivity ((r11 * r11 + r21 * r21 + r31 * r31) * x
                  + (r11 * r12 + r21 * r22 + r31 * r32) * y
                  + (r11 * r13 + r21 * r23 + r31 * r33) * z); [ring|].
    transitivity (1 * x + 0 * y + 0 * z); [|ring].
    repeat apply Qplus_comp; apply Qmult_comp; (assumption || reflexivity).
  - transitivity ((r11 * r12 + r21 * r22 + r31 * r32) * x
                  + (r12 * r12 + r22 * r22 + r32 * r32) * y
                  + (r12 * r13 + r22 * r23 + r32 * r33) * z); [ring|].
    transitivity (0 * x + 1 * y + 0 * z); [|ring].
    repeat apply Qplus_comp; apply Qmult_comp; (assumption || reflexivity).
  - transitivity ((r11 * r13 + r21 * r23 + r31 * r33) * x
                  + (r12 * r13 + r22 * r23 + r32 * r33) * y
                  + (r13 * r13 + r23 * r23 + r33 * r33) * z); [ring|].
    transitivity (0 * x + 0 * y + 1 * z); [|ring].
    repeat apply Qplus_comp; apply Qmult_comp; (assumption || reflexivity).
Qed.

End RigidRow.

Section RectRow.

Variables a b c d e f g h i : Q.

Local Abbreviation R := (array33 a b c d e f g h i).

Lemma inv_defined :
  invertible R → ∃ Rinv, inv R = inl Rinv ∧ nrows Rinv = 3%nat.
Proof.
  intros Hdet. unfold invertible, det in Hdet. unfold inv. simpl in *.
  destruct (Qeq_bool (det3 a b c d e f g h i) 0) eqn:E.
  - apply Qeq_bool_eq in E. done.
  - eexists. split; [reflexivity|]. reflexivity.
Qed.

Lemma inv_roundtrip_row (Rinv : ndarray) (x y z : Q) :
  inv R = inl Rinv →
  row_eq (mat_vec Rinv (mat_vec R [x; y; z])) [x; y; z].
Proof.
  unfold inv. simpl.
  destruct (Qeq_bool (det3 a b c d e f g h i) 0) eqn:E; [done|].
  apply Qeq_bool_neq in E. intros [= <-].
  cbv [array33 mat_vec rows map dotprod zip_with foldr].
  unfold det3 in *.
  row3; field; exact E.
Qed.

End RectRow.

(** The row maps respect the equality of rationals. *)
Lemma dotprod_proper (u u' v v' : list Q) :
  row_eq u u' → row_eq v v' → dotprod u v == dotprod u' v'.
Proof.
  unfold row_eq, dotprod. intros Hu. revert v v'.
  induction Hu as [|x x' u u' Hx Hu IH]; intros v v' Hv; [reflexivity|].
  destruct Hv as [|y y' v v' Hy Hv]; [reflexivity|].
  simpl. rewrite Hx, Hy, (IH _ _ Hv). reflexivity.
Qed.

Lemma row_eq_refl (u : list Q) : row_eq u u.
Proof. unfold row_eq. induction u; constructor; [reflexivity|done]. Qed.

Lemma affine_proper (m : ndarray) (p p' : list Q) :
  row_eq p p' → row_eq (affine m p) (affine m p').
Proof.
  intros Hp. unfold affine, row_eq.
  induction (rows m) as [|mr l IH]; simpl; constructor; [|done].
  apply dotprod_proper; [|apply row_eq_refl].
  unfold row_eq. apply Forall2_app; [done|]. constructor; [reflexivity|constructor].
Qed.

Lemma row_eq_trans (u v w : list Q) : row_eq u v → row_eq v w → row_eq u w.
Proof.
  unfold row_eq. intros Huv. revert w.
  induction Huv as [|x y u v Hxy Huv IH]; intros w Hvw; [done|].
  inversion Hvw as [|y' z v' w' Hyz Hvw']; subst.
  constructor; [by rewrite Hxy|by apply IH].
Qed.

(** ** The transforms, row by row *)

Lemma shaped_map (f : list Q → list Q) (c : nat) (l : list (list Q)) :
  (∀ p, length (f p) = c) → shaped (NdArray c (map f l)).
Proof.
  intros Hf. unfold shaped. simpl. apply Forall_forall. intros r Hr.
  apply list_elem_of_In, in_map_iff in Hr as (p & <- & _). apply Hf.
Qed.

Lemma shaped_affine (m : ndarray) (l : list (list Q)) :
  shaped (NdArray (nrows m) (map (affine m) l)).
Proof.
  unfold shaped. simpl. apply Forall_forall. intros r Hr.
  apply list_elem_of_In, in_map_iff in Hr as (p & <- & _).
  unfold affine, nrows. by rewrite length_map.
Qed.

Section Rows.

Variable self : FrustumProposal.

Lemma velo_to_ref_rows (pts : ndarray) :
  shaped (V2C self) →
  _project_velo_to_ref self pts
  = NdArray (nrows (V2C self)) (map (affine (V2C self)) (rows pts)).
Proof. intros. unfold _project_velo_to_ref. by apply dot_hom_transpose. Qed.

Lemma ref_to_velo_rows (pts : ndarray) :
  shaped (C2V self) →
  _project_ref_to_velo self pts
  = NdArray (nrows (C2V self)) (map (affine (C2V self)) (rows pts)).
Proof. intros. unfold _project_ref_to_velo. by apply dot_hom_transpose. Qed.

Lemma ref_to_rect_rows (pts : ndarray) :
  shaped pts →
  _project_ref_to_rect self pts
  = NdArray (nrows (R0 self)) (map (mat_vec (R0 self)) (rows pts)).
Proof. intros. unfold _project_ref_to_rect. by apply transpose_dot_transpose. Qed.

Lemma rect_to_ref_rows (pts r0_inv : ndarray) :
  shaped pts → inv (R0 self) = inl r0_inv →
  _project_rect_to_ref self pts
  = inl (NdArray (nrows r0_inv) (map (mat_vec r0_inv) (rows pts))).
Proof.
  intros Hs Hinv. unfold _project_rect_to_ref. rewrite Hinv. simpl.
  unfold ok. f_equal. by apply transpose_dot_transpose.
Qed.

Lemma velo_to_rect_rows (pts : ndarray) :
  shaped (V2C self) →
  _project_velo_to_rect self pts
  = NdArray (nrows (R0 self))
      (map (λ p, mat_vec (R0 self) (affine (V2C self) p)) (rows pts)).
Proof.
  intros Hs. unfold _project_velo_to_rect.
  rewrite velo_to_ref_rows by done.
  rewrite ref_to_rect_rows by apply shaped_affine.
  simpl. by rewrite map_map.
Qed.

Lemma rect_to_velo_rows (pts r0_inv : ndarray) :
  shaped (C2V self) → shaped pts → inv (R0 self) = inl r0_inv →
  project_rect_to_velo self pts
  = inl (NdArray (nrows (C2V self))
      (map (λ p, affine (C2V self) (mat_vec r0_inv p)) (rows pts))).
Proof.
  intros Hc Hs Hinv. unfold project_rect_to_velo.
  rewrite (rect_to_ref_rows _ _ Hs Hinv). simpl.
  rewrite ref_to_velo_rows by done. simpl. by rewrite map_map.
Qed.

End Rows.

(** The matrices of a constructed object have their shapes. *)
Lemma engine_shaped (p v r : list Q) :
  length p = 12%nat → length v = 12%nat → length r = 9%nat →
  let eng := engine_of p v r in
  shaped (P eng) ∧ shaped (V2C eng) ∧ shaped (C2V eng) ∧ shaped (R0 eng)
  ∧ nrows (P eng) = 3%nat ∧ nrows (V2C eng) = 3%nat
  ∧ nrows (C2V eng) = 3%nat ∧ nrows (R0 eng) = 3%nat.
Proof.
  intros Lp Lv Lr.
  do 12 (destruct p as [|? p]; [discriminate|]). destruct p; [|discriminate].
  do 12 (destruct v as [|? v]; [discriminate|]). destruct v; [|discriminate].
  do 9 (destruct r as [|? r]; [discriminate|]). destruct r; [|discriminate].
  simpl. unfold shaped. simpl.
  repeat split; repeat (apply List.Forall_cons; [reflexivity|]);
    apply List.Forall_nil.
Qed.

Lemma rows3_pointwise (f : list Q → list Q) (l : list (list Q)) :
  Forall (λ r, length r = 3%nat) l →
  (∀ x y z, row_eq (f [x; y; z]) [x; y; z]) →
  Forall2 row_eq (map f l) l.
Proof.
  intros Hl Hf. induction Hl as [|r l Hr Hl IH]; simpl.
  - apply List.Forall2_nil.
  - apply List.Forall2_cons; [|exact IH].
    destruct r as [|x [|y [|z [|? ?]]]]; try discriminate. apply Hf.
Qed.

(** ** Round trips *)

(** C1. For a constructed object whose [V2C] is rigid and an [n x 3] array of
    points, sensor -> reference ([_project_velo_to_ref]) followed by
    reference -> sensor ([_project_ref_to_velo], with the [C2V] computed by
    [__init__]) gives back every point, exactly in exact arithmetic. *)
Theorem velo_ref_velo_roundtrip (calibs : gmap string (list Q))
    (eng : FrustumProposal) (pts : ndarray) :
  init calibs = inl eng → rigid (V2C eng) → cloud 3 pts →
  arr_eq (_project_ref_to_velo eng (_project_velo_to_ref eng pts)) pts.
Proof.
  intros Hinit Hrigid [Hc Hs].
  apply init_inv in Hinit as (p & v & r & (_ & _ & _ & Lp & Lv & Lr) & ->).
  destruct (engine_shaped p v r Lp Lv Lr) as (_ & HV & HC & _ & _ & _ & HCn & _).
  rewrite velo_to_ref_rows by done. rewrite ref_to_velo_rows by done.
  split; [cbn [ncols]; by rewrite Hc|].
  cbn [rows]. rewrite map_map.
  apply rows3_pointwise; [by rewrite <- Hc|].
  intros x y z.
  destruct v as [|r11 [|r12 [|r13 [|t1 [|r21 [|r22 [|r23 [|t2 [|r31 [|r32
    [|r33 [|t3 [|? ?]]]]]]]]]]]]]; try discriminate.
  apply (rigid_roundtrip_row r11 r12 r13 t1 r21 r22 r23 t2 r31 r32 r33 t3).
  exact Hrigid.
Qed.

(** C6. For a constructed object whose [V2C] is rigid and whose [R0] is
    invertible, and an [n x 3] array of points, sensor -> rectified
    ([_project_velo_to_rect]) followed by rectified -> sensor
    ([project_rect_to_velo]) returns, and gives back every point, exactly in
    exact arithmetic. *)
Theorem velo_rect_velo_roundtrip (calibs : gmap string (list Q))
    (eng : FrustumProposal) (pts : ndarray) :
  init calibs = inl eng → rigid (V2C eng) → invertible (R0 eng) →
  cloud 3 pts →
  ∃ out, project_rect_to_velo eng (_project_velo_to_rect eng pts) = inl out
         ∧ arr_eq out pts.
Proof.
  intros Hinit Hrigid Hinv [Hc Hs].
  apply init_inv in Hinit as (p & v & r & (_ & _ & _ & Lp & Lv & Lr) & ->).
  destruct (engine_shaped p v r Lp Lv Lr)
    as (_ & HV & HC & _ & _ & _ & HCn & HRn).
  destruct v as [|r11 [|r12 [|r13 [|t1 [|r21 [|r22 [|r23 [|t2 [|r31 [|r32
    [|r33 [|t3 [|? ?]]]]]]]]]]]]]; try discriminate.
  destruct r as [|a [|b [|c [|d [|e [|f [|g [|h [|i [|? ?]]]]]]]]]];
    try discriminate.
  destruct (inv_defined a b c d e f g h i Hinv) as (Rinv & HRinv & _).
  rewrite velo_to_rect_rows by done.
  erewrite rect_to_velo_rows; [|done| |exact HRinv];
    [|apply shaped_map; intros; unfold mat_vec; apply length_map].
  eexists. split; [reflexivity|].
  split; [cbn [ncols]; by rewrite Hc|].
  cbn [rows]. rewrite map_map.
  apply rows3_pointwise; [by rewrite <- Hc|].
  intros x y z.
  eapply row_eq_trans;
    [|apply (rigid_roundtrip_row r11 r12 r13 t1 r21 r22 r23 t2 r31 r32 r33 t3);
      exact Hrigid].
  apply affine_proper.
  cbv [affine V2C engine_of chunks take drop rows map app dotprod zip_with
       foldr].
  apply (inv_roundtrip_row a b c d e f g h i). exact HRinv.
Qed.

(** ** Construction failures *)




(** C10, the claim as stated fails: a mapping with [R0_rect] that lacks
    [Tr_velo_to_cam] and whose [P] has 11 values passes the assertion, and
    construction then fails in [np.reshape] of [P], not at a key lookup. *)
Lemma short_P_no_Tr_not_KeyError :
  ¬ (is_Some (calibs_short_P_no_Tr !! "R0_rect"%string) →
     calibs_short_P_no_Tr !! "P"%string = None
     ∨ calibs_short_P_no_Tr !! "Tr_velo_to_cam"%string = None →
     truthy (init_assertion calibs_short_P_no_Tr) = true
     ∧ ∃ k, init calibs_short_P_no_Tr = inr (KeyError k)).
Proof.
  intros H. destruct H as (_ & k & Hk).
  - vm_compute. eauto.
  - right. vm_compute. reflexivity.
  - vm_compute in Hk. discriminate Hk.
Qed.

(** C10, amended. The assertion of [__init__] succeeds exactly when
    ['R0_rect'] is a key of the mapping.  For a mapping with ['R0_rect'] that
    lacks ['P'] or ['Tr_velo_to_cam'] the assertion passes and construction
    fails after it: with the [KeyError] of the lookup of ['P'] when ['P'] is
    missing, with the [KeyError] of the lookup of ['Tr_velo_to_cam'] when
    ['P'] is there with 12 values; when ['P'] is there with another count the
    [ValueError] of its [np.reshape] comes first. *)
Theorem assertion_checks_R0_rect_only (calibs : gmap string (list Q)) :
  (py_assert (init_assertion calibs) = ok tt
   ↔ is_Some (calibs !! "R0_rect"%string))
  ∧ (is_Some (calibs !! "R0_rect"%string) →
     calibs !! "P"%string = None
     ∨ calibs !! "Tr_velo_to_cam"%string = None →
     py_assert (init_assertion calibs) = ok tt
     ∧ init calibs =
       match calibs !! "P"%string with
       | None => raise (KeyError "P")
       | Some p =>
           if Nat.eqb (length p) 12
           then raise (KeyError "Tr_velo_to_cam")
           else raise ValueError
       end).
Proof.
  assert (py_assert (init_assertion calibs) = ok tt
          ↔ is_Some (calibs !! "R0_rect"%string)) as Hiff.
  { unfold py_assert. rewrite init_assertion_truthy. unfold contains.
    destruct (calibs !! "R0_rect"%string) as [r|] eqn:Hr.
    - rewrite bool_decide_eq_true_2 by eauto. split; eauto.
    - rewrite bool_decide_eq_false_2 by (intros [? ?]; done).
      split; [discriminate|]. intros [? ?]; done. }
  split; [exact Hiff|].
  intros HR Hmiss. split; [by apply Hiff|].
  rewrite init_cases. destruct HR as [r ->].
  destruct (calibs !! "P"%string) as [p|]; [|done].
  destruct Hmiss as [?|Hv]; [done|]. rewrite Hv.
  by destruct (Nat.eqb (length p) 12).
Qed.

Lemma assertion_checks_R0_rect_only_witness :
  py_assert (init_assertion calibs_R0_only) = ok tt
  ∧ init calibs_R0_only = raise (KeyError "P").
Proof.
  apply (proj2 (assertion_checks_R0_rect_only calibs_R0_only)).
  - vm_compute. eauto.
  - left. vm_compute. reflexivity.
Defined.

(** ** Comparisons *)

Lemma Qltb_lt (x y : Q) : Qltb x y = true ↔ x < y.
Proof.
  unfold Qltb. rewrite negb_true_iff. split.
  - intros H. apply Qnot_le_lt. intros Hle.
    apply Qle_bool_iff in Hle. congruence.
  - intros H. destruct (Qle_bool y x) eqn:E; [|done].
    apply Qle_bool_iff in E. destruct (Qlt_not_le _ _ H E).
Qed.

Lemma Qltb_irrefl (x y : Q) : x == y → Qltb x y = false.
Proof.
  intros H. destruct (Qltb x y) eqn:E; [|done].
  apply Qltb_lt in E. rewrite H in E. destruct (Qlt_irrefl _ E).
Qed.

(** [in_box] is membership in [[xmin, xmax) x [ymin, ymax)] of a finite
    pixel. *)
Lemma in_box_iff (xmin ymin xmax ymax : Q) (uv : list xval) :
  in_box xmin ymin xmax ymax uv = true ↔
  ∃ u v, xentry 0 uv = Fin u ∧ xentry 1 uv = Fin v
         ∧ xmin <= u ∧ u < xmax ∧ ymin <= v ∧ v < ymax.
Proof.
  unfold in_box. rewrite !andb_true_iff. split.
  - intros [[[H1 H2] H3] H4].
    destruct (xentry 0 uv) as [u| | |]; simpl in *; try discriminate.
    destruct (xentry 1 uv) as [v| | |]; simpl in *; try discriminate.
    exists u, v. apply Qltb_lt in H1, H3. apply Qle_bool_iff in H2, H4. done.
  - intros (u & v & -> & -> & H1 & H2 & H3 & H4). simpl.
    rewrite !(proj2 (Qltb_lt _ _)), !(proj2 (Qle_bool_iff _ _)); done.
Qed.

(** ** Masks *)

Lemma select_lookup_true {A} (mask : list bool) (l : list A) (i : nat) (x : A) :
  mask !! i = Some true → l !! i = Some x → x ∈ select mask l.
Proof.
  revert l i. induction mask as [|b mask IH]; intros l i Hm Hl; [done|].
  destruct l as [|y l]; [done|]. destruct i as [|i]; simpl in *.
  - injection Hm as ->. injection Hl as ->. left.
  - destruct b; [right|]; eapply IH; eauto.
Qed.

Lemma select_elem {A} (mask : list bool) (l : list A) (x : A) :
  x ∈ select mask l → ∃ i, mask !! i = Some true ∧ l !! i = Some x.
Proof.
  revert l. induction mask as [|b mask IH]; intros l Hx; simpl in Hx.
  - by apply elem_of_nil in Hx.
  - destruct l as [|y l]; [by apply elem_of_nil in Hx|].
    destruct b.
    + apply elem_of_cons in Hx as [->|Hx]; [by exists 0%nat|].
      destruct (IH _ Hx) as (i & ? & ?). by exists (S i).
    + destruct (IH _ Hx) as (i & ? & ?). by exists (S i).
Qed.

Section Masks.

Variable self : FrustumProposal.

Lemma velo_to_image_length (pc : ndarray) :
  length (_project_velo_to_image self pc) = nrows pc.
Proof.
  unfold _project_velo_to_image, _project_rect_to_image,
    _project_velo_to_rect, _project_ref_to_rect, _project_velo_to_ref,
    _cart2hom, dot, transpose, nrows.
  cbn [rows ncols].
  repeat (rewrite length_map || rewrite length_seq). reflexivity.
Qed.

Lemma velo_to_image_rows (pc : ndarray) :
  shaped (V2C self) → shaped (P self) → shaped pc →
  _project_velo_to_image self pc = map (pixel self) (rows pc).
Proof.
  intros HV HP Hs.
  unfold _project_velo_to_image, _project_rect_to_image.
  rewrite velo_to_rect_rows by done.
  rewrite dot_hom_transpose by done. cbn [rows].
  rewrite !map_map. reflexivity.
Qed.

(** The three values, as the statements of [_get_lidar_in_image_fov] compute
    them. *)
Lemma fov_more (pc : ndarray) (xmin ymin xmax ymax clip : Q)
    (sub : ndarray) (pts_2d : list (list xval)) (fov_inds : list bool) :
  _get_lidar_in_image_fov self pc xmin ymin xmax ymax true clip
    = FovMore sub pts_2d fov_inds →
  pts_2d = _project_velo_to_image self pc
  ∧ fov_inds = zip_with andb (box_mask pts_2d xmin ymin xmax ymax)
                 (map (λ x, Qltb clip x) (column 0 pc))
  ∧ sub = take_mask fov_inds pc.
Proof. unfold _get_lidar_in_image_fov. intros [= <- <- <-]. done. Qed.

Lemma fov_inds_lookup (pc : ndarray) (xmin ymin xmax ymax clip : Q)
    (pts_2d : list (list xval)) (i : nat) (uv : list xval) (p : list Q) :
  pts_2d !! i = Some uv → rows pc !! i = Some p →
  zip_with andb (box_mask pts_2d xmin ymin xmax ymax)
    (map (λ x, Qltb clip x) (column 0 pc)) !! i
  = Some (in_box xmin ymin xmax ymax uv && Qltb clip (entry 0 p)).
Proof.
  intros Huv Hp. apply lookup_zip_with_Some.
  exists (in_box xmin ymin xmax ymax uv), (Qltb clip (entry 0 p)).
  split; [done|]. unfold box_mask, column.
  change map with (@fmap list _) in *.
  by rewrite !list_lookup_fmap, Huv, Hp.
Qed.


End Masks.

(** ** The field-of-view filter *)

Lemma fov_inds_at (self : FrustumProposal) (pc : ndarray)
    (xmin ymin xmax ymax clip : Q) (sub : ndarray)
    (pts_2d : list (list xval)) (fov_inds : list bool)
    (i : nat) (p : list Q) :
  _get_lidar_in_image_fov self pc xmin ymin xmax ymax true clip
    = FovMore sub pts_2d fov_inds →
  rows pc !! i = Some p →
  ∃ uv, pts_2d !! i = Some uv
        ∧ fov_inds !! i
          = Some (in_box xmin ymin xmax ymax uv && Qltb clip (entry 0 p)).
Proof.
  intros Hfov Hp. apply fov_more in Hfov as (Hpts & -> & _).
  destruct (lookup_lt_is_Some_2 pts_2d i) as [uv Huv].
  { rewrite Hpts, velo_to_image_length. by eapply lookup_lt_Some. }
  exists uv. split; [done|]. by apply fov_inds_lookup.
Qed.

(** C4. In [_get_lidar_in_image_fov] the distance test is strict.  A point
    whose first coordinate equals [clip_distance] has a false mask entry and
    is not in the filtered subset; a point whose first coordinate is
    [clip_distance + eps], [eps > 0], and whose projection is in the box has
    a true mask entry and is in the filtered subset. *)
Theorem clip_distance_strict (self : FrustumProposal) (pc : ndarray)
    (xmin ymin xmax ymax clip : Q) (sub : ndarray)
    (pts_2d : list (list xval)) (fov_inds : list bool)
    (i : nat) (p : list Q) :
  _get_lidar_in_image_fov self pc xmin ymin xmax ymax true clip
    = FovMore sub pts_2d fov_inds →
  rows pc !! i = Some p →
  (entry 0 p == clip → fov_inds !! i = Some false ∧ p ∉ rows sub)
  ∧ (∀ eps uv, 0 < eps → entry 0 p == clip + eps →
       pts_2d !! i = Some uv → in_box xmin ymin xmax ymax uv = true →
       fov_inds !! i = Some true ∧ p ∈ rows sub).
Proof.
  intros Hfov Hp.
  destruct (fov_inds_at _ _ _ _ _ _ _ _ _ _ _ _ Hfov Hp) as (uv & Huv & Hi).
  pose proof (fov_more _ _ _ _ _ _ _ _ _ _ Hfov) as (_ & _ & Hsub).
  split.
  - intros Heq. split.
    + rewrite Hi, (Qltb_irrefl clip (entry 0 p)) by (symmetry; exact Heq).
      by rewrite andb_false_r.
    + intros Hin. rewrite Hsub in Hin. cbn [rows take_mask] in Hin.
      apply select_elem in Hin as (j & Hj & Hpj).
      destruct (fov_inds_at _ _ _ _ _ _ _ _ _ _ _ _ Hfov Hpj)
        as (uv' & _ & Hj').
      rewrite Hj' in Hj. injection Hj as Hj.
      apply andb_true_iff in Hj as [_ Hj].
      rewrite (Qltb_irrefl clip (entry 0 p)) in Hj by (symmetry; exact Heq).
      discriminate.
  - intros eps uv' Heps Heq Huv' Hbox.
    assert (fov_inds !! i = Some true) as Htrue.
    { rewrite Hi. rewrite Huv in Huv'. injection Huv' as ->.
      rewrite Hbox. simpl. f_equal. apply Qltb_lt. rewrite Heq.
      rewrite <- (Qplus_0_r clip) at 1. apply Qplus_lt_r. exact Heps. }
    split; [done|]. rewrite Hsub. cbn [rows take_mask].
    by eapply select_lookup_true.
Qed.


(** C8, the claim as stated fails: called as the specification's signature
    has it, without [return_more], the function returns the filtered subset
    alone. *)
Lemma fov_default_returns_one_value :
  ¬ ∃ sub pts_2d fov_inds,
      _get_lidar_in_image_fov engine_ok points_ok 0 0 100 100 false
        default_clip_distance
      = FovMore sub pts_2d fov_inds.
Proof. intros (sub & pts_2d & fov_inds & H). discriminate H. Qed.

(** C8, amended. Called on an [n x 3] array of points with [return_more] set
    (as [get_frustum_proposal] calls it), [_get_lidar_in_image_fov] of a
    constructed object returns three values: the filtered
    subset, the projections of all input points (one row per input point, in
    input order) and the mask (one entry per input point, in input order:
    projection in the box and first coordinate beyond [clip_distance]); the
    subset is made of the rows whose mask entry is true.  With the default
    [return_more=False] it returns that subset alone. *)
Theorem fov_returns (calibs : gmap string (list Q)) (self : FrustumProposal)
    (pc : ndarray) (xmin ymin xmax ymax clip : Q) :
  init calibs = inl self → cloud 3 pc →
  ∃ fov_inds pts_2d,
    _get_lidar_in_image_fov self pc xmin ymin xmax ymax true clip
      = FovMore (take_mask fov_inds pc) pts_2d fov_inds
    ∧ _get_lidar_in_image_fov self pc xmin ymin xmax ymax false clip
      = FovOnly (take_mask fov_inds pc)
    ∧ length pts_2d = nrows pc ∧ length fov_inds = nrows pc
    ∧ ∀ i p, rows pc !! i = Some p →
        pts_2d !! i = Some (pixel self p)
        ∧ fov_inds !! i
          = Some (in_box xmin ymin xmax ymax (pixel self p)
                  && Qltb clip (entry 0 p)).
Proof.
  intros Hinit [Hc Hs].
  apply init_inv in Hinit as (p & v & r & (_ & _ & _ & Lp & Lv & Lr) & ->).
  destruct (engine_shaped p v r Lp Lv Lr) as (HP & HV & _).
  eexists _, _. split; [reflexivity|]. split; [reflexivity|].
  assert (∀ i q, rows pc !! i = Some q →
    _project_velo_to_image (engine_of p v r) pc !! i
    = Some (pixel (engine_of p v r) q)) as Hpix.
  { intros i q Hq. rewrite velo_to_image_rows by done.
    change map with (@fmap list _). by rewrite list_lookup_fmap, Hq. }
  split; [apply velo_to_image_length|]. split.
  - rewrite length_zip_with. unfold box_mask, column.
    rewrite !length_map, velo_to_image_length. unfold nrows. lia.
  - intros i q Hq. split; [by apply Hpix|].
    apply fov_inds_lookup; [by apply Hpix|done].
Qed.

(** ** The frustum extraction *)

Lemma assign_rows_map {A B} (f : list Q → B → list Q)
    (g : A → list Q) (h : A → B) (l : list A) :
  assign_rows f (map g l) (map h l) = map (λ x, f (g x) (h x)) l.
Proof. induction l as [|x l IH]; simpl; [done|]. by rewrite IH. Qed.

Lemma assign_row4 (r new : list Q) (x : Q) :
  length r = 4%nat → length new = 3%nat →
  <[3%nat := x]> (set_row03 (map (λ _, 0) r) new) = (new ++ [x])%list.
Proof.
  intros Hr Hn.
  destruct r as [|? [|? [|? [|? [|? ?]]]]]; try discriminate.
  destruct new as [|? [|? [|? [|? ?]]]]; try discriminate.
  reflexivity.
Qed.

Lemma shaped_select (mask : list bool) (a : ndarray) :
  shaped a → shaped (take_mask mask a).
Proof.
  unfold shaped, take_mask. simpl. rewrite !Forall_forall.
  intros Ha r Hr. apply select_elem in Hr as (i & _ & Hi).
  apply Ha. by eapply list_elem_of_lookup_2.
Qed.

Lemma cols03_cloud (a : ndarray) : cloud 4 a → cloud 3 (cols03 a).
Proof.
  intros [Hc Hs]. split; [simpl; by rewrite Hc|].
  unfold shaped, cols03 in *. simpl. rewrite Hc in *.
  apply Forall_forall. intros r Hr.
  apply list_elem_of_In, in_map_iff in Hr as (q & <- & Hq).
  rewrite Forall_forall in Hs. apply list_elem_of_In in Hq.
  rewrite length_take, (Hs q Hq). reflexivity.
Qed.

Section Extraction.

Variable self : FrustumProposal.

Lemma rect_cloud_rows (pc_velo : ndarray) :
  shaped (V2C self) → nrows (R0 self) = 3%nat → cloud 4 pc_velo →
  rect_cloud self pc_velo = NdArray 4 (map (rect_row self) (rows pc_velo)).
Proof.
  intros HV HR Hpc. destruct (cols03_cloud _ Hpc) as [_ Hs3].
  destruct Hpc as [Hc Hs].
  unfold rect_cloud. rewrite velo_to_rect_rows by done.
  unfold set_col3, set_cols03, zeros_like, col3, column, cols03.
  cbn [rows ncols]. rewrite Hc. f_equal.
  rewrite map_map, assign_rows_map, assign_rows_map.
  apply map_ext_in. intros r Hr.
  unfold rect_row. apply assign_row4.
  - unfold shaped in Hs. rewrite Forall_forall in Hs.
    rewrite Hc in Hs. apply Hs. by apply list_elem_of_In.
  - unfold mat_vec. by rewrite length_map.
Qed.

Lemma velo_fov_rows (sub r0_inv : ndarray) :
  shaped (C2V self) → nrows (C2V self) = 3%nat →
  inv (R0 self) = inl r0_inv → cloud 4 sub →
  velo_fov self sub = inl (NdArray 4 (map (velo_row self r0_inv) (rows sub))).
Proof.
  intros HC HCn Hinv Hsub. destruct (cols03_cloud _ Hsub) as [_ Hs3].
  destruct Hsub as [Hc Hs].
  unfold velo_fov. rewrite (rect_to_velo_rows _ _ _ HC Hs3 Hinv).
  unfold bind, ok. f_equal.
  unfold set_col3, set_cols03, zeros_like, col3, column, cols03.
  cbn [rows ncols]. rewrite Hc. f_equal.
  rewrite map_map, assign_rows_map, assign_rows_map.
  apply map_ext_in. intros r Hr.
  unfold velo_row. apply assign_row4.
  - unfold shaped in Hs. rewrite Forall_forall in Hs.
    rewrite Hc in Hs. apply Hs. by apply list_elem_of_In.
  - unfold affine. rewrite length_map. exact HCn.
Qed.

Lemma velo_fov_inv (sub velo : ndarray) :
  velo_fov self sub = inl velo → ∃ r0_inv, inv (R0 self) = inl r0_inv.
Proof.
  unfold velo_fov, project_rect_to_velo, _project_rect_to_ref.
  destruct (inv (R0 self)) as [r0_inv|e]; [eauto|discriminate].
Qed.

Lemma velo_fov_returns (sub r0_inv : ndarray) :
  inv (R0 self) = inl r0_inv → ∃ velo, velo_fov self sub = inl velo.
Proof.
  intros Hinv. unfold velo_fov, project_rect_to_velo, _project_rect_to_ref.
  rewrite Hinv. simpl. eauto.
Qed.

(** The loop appends, box after box, the pair of the box. *)
Lemma proposal_loop_spec (pc_rect : ndarray)
    (pc_image_coord : list (list xval)) (img_fov_inds : list bool)
    (boxes2d : list (Q * Q * Q * Q)) (acc acc_velo out out_velo : list ndarray) :
  proposal_loop self pc_rect pc_image_coord img_fov_inds boxes2d acc acc_velo
    = inl (out, out_velo) →
  ∃ velos,
    out = (acc ++ map (λ box,
             take_mask (box_fov_inds pc_image_coord img_fov_inds box) pc_rect)
             boxes2d)%list
    ∧ out_velo = (acc_velo ++ velos)%list
    ∧ Forall2 (λ box velo,
         velo_fov self
           (take_mask (box_fov_inds pc_image_coord img_fov_inds box) pc_rect)
         = inl velo) boxes2d velos.
Proof.
  revert acc acc_velo.
  induction boxes2d as [|box rest IH]; intros acc acc_velo Hloop; simpl in Hloop.
  - injection Hloop as <- <-. exists []. by rewrite !app_nil_r.
  - destruct (velo_fov self (take_mask
        (box_fov_inds pc_image_coord img_fov_inds box) pc_rect))
      as [velo|e] eqn:Hvelo; simpl in Hloop; [|discriminate].
    destruct (IH _ _ Hloop) as (velos & -> & -> & Hall).
    exists (velo :: velos). rewrite <- !app_assoc. simpl.
    split; [done|]. split; [done|]. by constructor.
Qed.

Lemma proposal_loop_returns (pc_rect r0_inv : ndarray)
    (pc_image_coord : list (list xval)) (img_fov_inds : list bool)
    (boxes2d : list (Q * Q * Q * Q)) (acc acc_velo : list ndarray) :
  inv (R0 self) = inl r0_inv →
  ∃ out, proposal_loop self pc_rect pc_image_coord img_fov_inds boxes2d
           acc acc_velo = inl out.
Proof.
  intros Hinv. revert acc acc_velo.
  induction boxes2d as [|box rest IH]; intros acc acc_velo; simpl; [eauto|].
  destruct (velo_fov_returns (take_mask
      (box_fov_inds pc_image_coord img_fov_inds box) pc_rect) _ Hinv)
    as [velo ->].
  simpl. apply IH.
Qed.

(** What [get_frustum_proposal] returns, in terms of the values its
    statements compute. *)
Lemma get_frustum_proposal_spec (img_shape : Z * Z * Z)
    (boxes2d : list (Q * Q * Q * Q)) (pc_velo : ndarray)
    (out out_velo : list ndarray) :
  get_frustum_proposal self img_shape boxes2d pc_velo = inl (out, out_velo) →
  ∃ sub pc_image_coord img_fov_inds,
    _get_lidar_in_image_fov self (cols03 pc_velo) 0 0
      (inject_Z img_shape.1.2) (inject_Z img_shape.1.1) true
      default_clip_distance
    = FovMore sub pc_image_coord img_fov_inds
    ∧ out = map (λ box,
              take_mask (box_fov_inds pc_image_coord img_fov_inds box)
                (rect_cloud self pc_velo)) boxes2d
    ∧ Forall2 (λ box velo,
         velo_fov self
           (take_mask (box_fov_inds pc_image_coord img_fov_inds box)
              (rect_cloud self pc_velo))
         = inl velo) boxes2d out_velo.
Proof.
  destruct img_shape as [[h w] c]. unfold get_frustum_proposal.
  intros Hloop. eexists _, _, _. split; [reflexivity|].
  cbn [_get_lidar_in_image_fov] in Hloop.
  apply proposal_loop_spec in Hloop as (velos & -> & -> & Hall). done.
Qed.

End Extraction.

(** The extraction returns whenever [R0] can be inverted. *)
Lemma get_frustum_proposal_returns (self : FrustumProposal)
    (r0_inv : ndarray) (img_shape : Z * Z * Z)
    (boxes2d : list (Q * Q * Q * Q)) (pc_velo : ndarray) :
  inv (R0 self) = inl r0_inv →
  ∃ out, get_frustum_proposal self img_shape boxes2d pc_velo = inl out.
Proof.
  intros Hinv. destruct img_shape as [[h w] c]. unfold get_frustum_proposal.
  cbn [_get_lidar_in_image_fov]. by eapply proposal_loop_returns.
Qed.

(** *** The kept indices *)







(** *** Pairs and order *)

Lemma rows_mk (c : nat) (l : list (list Q)) : rows (NdArray c l) = l.
Proof. reflexivity. Qed.

Lemma rows_take_mask (mask : list bool) (a : ndarray) :
  rows (take_mask mask a) = select mask (rows a).
Proof. reflexivity. Qed.

Lemma rect_cloud_cloud (self : FrustumProposal) (pc_velo : ndarray) :
  shaped (V2C self) → nrows (R0 self) = 3%nat → cloud 4 pc_velo →
  cloud 4 (rect_cloud self pc_velo).
Proof.
  intros HV HR Hpc. rewrite rect_cloud_rows by done.
  split; [done|]. apply shaped_map. intros r. unfold rect_row, mat_vec.
  rewrite length_app, length_map. simpl. unfold nrows in HR. lia.
Qed.

Lemma velo_row_parts (self : FrustumProposal) (r0_inv : ndarray) (r : list Q) :
  nrows (C2V self) = 3%nat →
  take 3 (velo_row self r0_inv r) = affine (C2V self) (mat_vec r0_inv (take 3 r))
  ∧ entry 3 (velo_row self r0_inv r) = entry 3 r.
Proof.
  intros HCn.
  assert (length (affine (C2V self) (mat_vec r0_inv (take 3 r))) = 3%nat)
    as Hlen by (unfold affine; by rewrite length_map).
  unfold velo_row.
  destruct (affine (C2V self) (mat_vec r0_inv (take 3 r)))
    as [|x [|y [|z [|? ?]]]]; try discriminate.
  done.
Qed.

(** On a float64 cloud the pairs are consistent.  Every pair that
    [get_frustum_proposal] returns for a constructed object and an [n x 4]
    cloud of dtype float64 has two subsets with the same number of rows, and
    for every row index [k] the first three entries of the sensor-frame row
    are [project_rect_to_velo] of the first three entries of the
    rectified-frame row, and the fourth entries are equal. *)
Theorem pairing_consistency (calibs : gmap string (list Q))
    (self : FrustumProposal) (img_shape : Z * Z * Z)
    (boxes2d : list (Q * Q * Q * Q)) (pc_velo : ndarray)
    (frustum_proposals frustum_proposals_velo : list ndarray) :
  init calibs = inl self → cloud 4 pc_velo →
  get_frustum_proposal self img_shape boxes2d pc_velo
    = inl (frustum_proposals, frustum_proposals_velo) →
  length frustum_proposals = length frustum_proposals_velo
  ∧ ∀ i rect velo,
      frustum_proposals !! i = Some rect →
      frustum_proposals_velo !! i = Some velo →
      nrows rect = nrows velo
      ∧ ∀ k r v, rows rect !! k = Some r → rows velo !! k = Some v →
          project_rect_to_velo self (NdArray 3 [take 3 r])
            = inl (NdArray 3 [take 3 v])
          ∧ entry 3 v = entry 3 r.
Proof.
  intros Hinit Hpc Hget.
  apply init_inv in Hinit as (p & v & r & (_ & _ & _ & Lp & Lv & Lr) & ->).
  destruct (engine_shaped p v r Lp Lv Lr)
    as (_ & HV & HC & _ & _ & _ & HCn & HRn).
  set (eng := engine_of p v r) in *.
  apply get_frustum_proposal_spec
    in Hget as (sub & coords & inds & _ & -> & Hall).
  split; [rewrite length_map; by eapply Forall2_length|].
  intros i rect velo Hrect Hvelo.
  change map with (@fmap list _) in Hrect.
  rewrite list_lookup_fmap in Hrect.
  destruct (boxes2d !! i) as [box|] eqn:Hbox; [|discriminate].
  injection Hrect as <-.
  pose proof (Forall2_lookup_lr _ _ _ _ _ _ Hall Hbox Hvelo) as Hv.
  cbn beta in Hv.
  destruct (velo_fov_inv _ _ _ Hv) as [r0_inv Hinv].
  assert (cloud 4 (take_mask (box_fov_inds coords inds box)
                     (rect_cloud eng pc_velo))) as Hsub.
  { destruct (rect_cloud_cloud eng pc_velo HV HRn Hpc) as [Hc Hs].
    split; [done|]. by apply shaped_select. }
  rewrite (velo_fov_rows eng _ r0_inv HC HCn Hinv Hsub) in Hv.
  assert (rows velo = velo_row eng r0_inv <$> rows (take_mask
            (box_fov_inds coords inds box) (rect_cloud eng pc_velo)))
    as Hrows by (injection Hv as <-; reflexivity).
  clear Hv.
  split; [unfold nrows; by rewrite Hrows, length_fmap|].
  intros k rk vk Hrk Hvk.
  rewrite Hrows, list_lookup_fmap, Hrk in Hvk. injection Hvk as <-.
  destruct (velo_row_parts eng r0_inv rk HCn) as [-> ->].
  split; [|done].
  assert (length rk = 4%nat) as Hlen.
  { destruct Hsub as [Hc Hs]. unfold shaped in Hs.
    rewrite Forall_lookup in Hs. rewrite <- Hc. by apply (Hs k). }
  rewrite (rect_to_velo_rows eng (NdArray 3 [take 3 rk]) r0_inv HC); [|
    |exact Hinv].
  - rewrite rows_mk, HCn. reflexivity.
  - unfold shaped. rewrite rows_mk. constructor; [|constructor].
    rewrite length_take, Hlen. reflexivity.
Qed.


(** C7, the claim as stated fails: in the scenario the extraction returns
    two empty subsets for the box, not the point. *)
Lemma scenario_point_not_returned :
  ¬ ∃ rect velo,
      get_frustum_proposal engine_identity (100, 100, 3)%Z
        [(0, 0, 50, 50)] cloud_scenario = inl ([rect], [velo])
      ∧ arr_eq rect (NdArray 4 [[5; 0; 0; 1]])
      ∧ arr_eq velo (NdArray 4 [[5; 0; 0; 1]]).
Proof.
  intros (rect & velo & Hget & [_ Hrect] & _).
  vm_compute in Hget. injection Hget as <- <-.
  cbn [rows] in Hrect. inversion Hrect.
Qed.

(** C7, amended. With the scenario's [P], [V2C] and [R0], cloud
    [[5,0,0,1.0]], image shape (100,100,3) and box [0,0,50,50], the
    extraction returns, for that box, an empty rectified-frame subset and an
    empty sensor-frame subset: the point is beyond the clip distance, but its
    rectified depth is 0, so the perspective divide gives the projection
    (inf, nan), which is in no box. *)
Theorem scenario_empty_frustum :
  init calibs_identity = inl engine_identity
  ∧ _project_velo_to_image engine_identity (cols03 cloud_scenario)
    = [[PInf; NaN]]
  ∧ Qltb default_clip_distance 5 = true
  ∧ get_frustum_proposal engine_identity (100, 100, 3)%Z
      [(0, 0, 50, 50)] cloud_scenario
    = inl ([NdArray 4 []], [NdArray 4 []]).
Proof. repeat split; vm_compute; reflexivity. Qed.

(** ** The theorems at concrete inputs *)

Lemma engine_ok_rigid : rigid (V2C engine_ok).
Proof. split; [reflexivity|]. vm_compute. rows_eq. Qed.

Lemma points_ok_cloud : cloud 3 points_ok.
Proof. split; [reflexivity|]. unfold shaped. vm_compute. rows_eq. Qed.

Lemma cloud_ok_cloud : cloud 4 cloud_ok.
Proof. split; [reflexivity|]. unfold shaped. vm_compute. rows_eq. Qed.

Lemma init_calibs_ok : init calibs_ok = inl engine_ok.
Proof. vm_compute. reflexivity. Qed.

Lemma velo_ref_velo_roundtrip_witness :
  arr_eq (_project_ref_to_velo engine_ok
            (_project_velo_to_ref engine_ok points_ok)) points_ok.
Proof.
  apply (velo_ref_velo_roundtrip calibs_ok engine_ok points_ok).
  - exact init_calibs_ok.
  - exact engine_ok_rigid.
  - exact points_ok_cloud.
Defined.

Lemma velo_rect_velo_roundtrip_witness :
  ∃ out, project_rect_to_velo engine_ok
           (_project_velo_to_rect engine_ok points_ok) = inl out
         ∧ arr_eq out points_ok.
Proof.
  apply (velo_rect_velo_roundtrip calibs_ok engine_ok points_ok).
  - exact init_calibs_ok.
  - exact engine_ok_rigid.
  - vm_compute. discriminate.
  - exact points_ok_cloud.
Defined.

(** The point [2, 0, 0] is at the default clip distance and is dropped
    although it projects into the image; the point [5, 1, 2] is kept. *)
Lemma clip_distance_strict_witness :
  ∃ sub pts_2d fov_inds,
    _get_lidar_in_image_fov engine_ok points_ok 0 0 100 100 true
      default_clip_distance = FovMore sub pts_2d fov_inds
    ∧ (fov_inds !! 3%nat = Some false ∧ [2; 0; 0] ∉ rows sub)
    ∧ (fov_inds !! 0%nat = Some true ∧ [5; 1; 2] ∈ rows sub).
Proof.
  eexists _, _, _. split; [reflexivity|]. split.
  - apply (clip_distance_strict engine_ok points_ok 0 0 100 100
             default_clip_distance _ _ _ 3%nat [2; 0; 0] eq_refl eq_refl).
    reflexivity.
  - eapply (proj2 (clip_distance_strict engine_ok points_ok 0 0 100 100
             default_clip_distance _ _ _ 0%nat [5; 1; 2] eq_refl eq_refl) 3).
    + reflexivity.
    + reflexivity.
    + reflexivity.
    + vm_compute. reflexivity.
Defined.


Lemma fov_returns_witness :
  ∃ fov_inds pts_2d,
    _get_lidar_in_image_fov engine_ok points_ok 0 0 100 100 true
      default_clip_distance
      = FovMore (take_mask fov_inds points_ok) pts_2d fov_inds
    ∧ _get_lidar_in_image_fov engine_ok points_ok 0 0 100 100 false
        default_clip_distance
      = FovOnly (take_mask fov_inds points_ok)
    ∧ length pts_2d = nrows points_ok ∧ length fov_inds = nrows points_ok
    ∧ ∀ i p, rows points_ok !! i = Some p →
        pts_2d !! i = Some (pixel engine_ok p)
        ∧ fov_inds !! i
          = Some (in_box 0 0 100 100 (pixel engine_ok p)
                  && Qltb default_clip_distance (entry 0 p)).
Proof.
  apply (fov_returns calibs_ok engine_ok points_ok).
  - exact init_calibs_ok.
  - exact points_ok_cloud.
Defined.

Lemma extraction_ok_returns :
  ∃ fp fpv,
    get_frustum_proposal engine_ok (100, 100, 3)%Z boxes_ok cloud_ok
    = inl (fp, fpv)
    ∧ length fp = 3%nat
    ∧ (nrows <$> fp) = [3; 0; 3]%nat.
Proof. vm_compute. eexists _, _. done. Qed.

Lemma pairing_consistency_witness :
  ∃ fp fpv,
    get_frustum_proposal engine_ok (100, 100, 3)%Z boxes_ok cloud_ok
    = inl (fp, fpv)
    ∧ length fp = length fpv
    ∧ ∀ i rect velo,
        fp !! i = Some rect → fpv !! i = Some velo →
        nrows rect = nrows velo
        ∧ ∀ k r v, rows rect !! k = Some r → rows velo !! k = Some v →
            project_rect_to_velo engine_ok (NdArray 3 [take 3 r])
              = inl (NdArray 3 [take 3 v])
            ∧ entry 3 v = entry 3 r.
Proof.
  destruct extraction_ok_returns as (fp & fpv & Hget & _).
  exists fp, fpv. split; [exact Hget|].
  exact (pairing_consistency calibs_ok engine_ok _ _ _ _ _
           init_calibs_ok cloud_ok_cloud Hget).
Defined.


(** * Further properties of the transform chain and of the extraction *)

(** ** A rigid rotation block has orthonormal rows too *)

Lemma det3_proper (a b c d e f g h i a' b' c' d' e' f' g' h' i' : Q) :
  a == a' → b == b' → c == c' → d == d' → e == e' → f == f' →
  g == g' → h == h' → i == i' →
  det3 a b c d e f g h i == det3 a' b' c' d' e' f' g' h' i'.
Proof.
  intros Ha Hb Hc Hd He Hf Hg Hh Hi. unfold det3.
  rewrite Ha, Hb, Hc, Hd, He, Hf, Hg, Hh, Hi. reflexivity.
Qed.

Section RigidRows.

Variables r11 r12 r13 t1 r21 r22 r23 t2 r31 r32 r33 t3 : Q.

Local Abbreviation Tr :=
  (array34 r11 r12 r13 t1 r21 r22 r23 t2 r31 r32 r33 t3).

Local Abbreviation d := (det3 r11 r12 r13 r21 r22 r23 r31 r32 r33).

(** The cofactors of [R] are [det R] times the entries of [R]. *)
Lemma rigid_cofactors :
  rigid Tr →
  (d * r11 == r22 * r33 - r23 * r32 ∧ d * r12 == r23 * r31 - r21 * r33
   ∧ d * r13 == r21 * r32 - r22 * r31)
  ∧ (d * r21 == r13 * r32 - r12 * r33 ∧ d * r22 == r11 * r33 - r13 * r31
     ∧ d * r23 == r12 * r31 - r11 * r32)
  ∧ (d * r31 == r12 * r23 - r13 * r22 ∧ d * r32 == r13 * r21 - r11 * r23
     ∧ d * r33 == r11 * r22 - r12 * r21).
Proof.
  intros H.
  destruct (rigid_entries _ _ _ t1 _ _ _ t2 _ _ _ t3 H)
    as (H11 & H12 & H13 & H22 & H23 & H33).
  assert (∀ g1 g2 g3 c1 c2 c3 e1 e2 e3 : Q,
    g1 == e1 → g2 == e2 → g3 == e3 →
    g1 * c1 + g2 * c2 + g3 * c3 == e1 * c1 + e2 * c2 + e3 * c3) as Hlin.
  { intros. repeat apply Qplus_comp; apply Qmult_comp;
      (assumption || reflexivity). }
  unfold det3. repeat split.
  - transitivity (1 * (r22 * r33 - r23 * r32) + 0 * (r23 * r31 - r21 * r33)
                  + 0 * (r21 * r32 - r22 * r31)); [|ring].
    rewrite <- (Hlin _ _ _ _ _ _ _ _ _ H11 H12 H13). ring.
  - transitivity (0 * (r22 * r33 - r23 * r32) + 1 * (r23 * r31 - r21 * r33)
                  + 0 * (r21 * r32 - r22 * r31)); [|ring].
    rewrite <- (Hlin _ _ _ _ _ _ _ _ _ H12 H22 H23). ring.
  - transitivity (0 * (r22 * r33 - r23 * r32) + 0 * (r23 * r31 - r21 * r33)
                  + 1 * (r21 * r32 - r22 * r31)); [|ring].
    rewrite <- (Hlin _ _ _ _ _ _ _ _ _ H13 H23 H33). ring.
  - transitivity (1 * (r13 * r32 - r12 * r33) + 0 * (r11 * r33 - r13 * r31)
                  + 0 * (r12 * r31 - r11 * r32)); [|ring].
    rewrite <- (Hlin _ _ _ _ _ _ _ _ _ H11 H12 H13). ring.
  - transitivity (0 * (r13 * r32 - r12 * r33) + 1 * (r11 * r33 - r13 * r31)
                  + 0 * (r12 * r31 - r11 * r32)); [|ring].
    rewrite <- (Hlin _ _ _ _ _ _ _ _ _ H12 H22 H23). ring.
  - transitivity (0 * (r13 * r32 - r12 * r33) + 0 * (r11 * r33 - r13 * r31)
                  + 1 * (r12 * r31 - r11 * r32)); [|ring].
    rewrite <- (Hlin _ _ _ _ _ _ _ _ _ H13 H23 H33). ring.
  - transitivity (1 * (r12 * r23 - r13 * r22) + 0 * (r13 * r21 - r11 * r23)
                  + 0 * (r11 * r22 - r12 * r21)); [|ring].
    rewrite <- (Hlin _ _ _ _ _ _ _ _ _ H11 H12 H13). ring.
  - transitivity (0 * (r12 * r23 - r13 * r22) + 1 * (r13 * r21 - r11 * r23)
                  + 0 * (r11 * r22 - r12 * r21)); [|ring].
    rewrite <- (Hlin _ _ _ _ _ _ _ _ _ H12 H22 H23). ring.
  - transitivity (0 * (r12 * r23 - r13 * r22) + 0 * (r13 * r21 - r11 * r23)
                  + 1 * (r11 * r22 - r12 * r21)); [|ring].
    rewrite <- (Hlin _ _ _ _ _ _ _ _ _ H13 H23 H33). ring.
Qed.

Lemma rigid_det : rigid Tr → d * d == 1.
Proof.
  intros H.
  destruct (rigid_entries _ _ _ t1 _ _ _ t2 _ _ _ t3 H)
    as (H11 & H12 & H13 & H22 & H23 & H33).
  transitivity (det3 1 0 0 0 1 0 0 0 1); [|reflexivity].
  rewrite <- (det3_proper _ _ _ _ _ _ _ _ _ _ _ _ _ _ _ _ _ _
                H11 H12 H13 H12 H22 H23 H13 H23 H33).
  unfold det3. ring.
Qed.

(** [R^T R = I] gives [R R^T = I]. *)
Lemma rigid_rows :
  rigid Tr →
  r11 * r11 + r12 * r12 + r13 * r13 == 1 ∧
  r11 * r21 + r12 * r22 + r13 * r23 == 0 ∧
  r11 * r31 + r12 * r32 + r13 * r33 == 0 ∧
  r21 * r21 + r22 * r22 + r23 * r23 == 1 ∧
  r21 * r31 + r22 * r32 + r23 * r33 == 0 ∧
  r31 * r31 + r32 * r32 + r33 * r33 == 1.
Proof.
  intros H. pose proof (rigid_det H) as Hdd.
  destruct (rigid_cofactors H)
    as ((C11 & C12 & C13) & (C21 & C22 & C23) & (C31 & C32 & C33)).
  assert (∀ x e : Q, d * x == d * e → x == e) as Hcancel.
  { intros x e Hx.
    transitivity (d * d * x); [rewrite Hdd; ring|].
    transitivity (d * (d * x)); [ring|].
    rewrite Hx. transitivity (d * d * e); [ring|]. rewrite Hdd. ring. }
  assert (∀ a b c x y z x' y' z' : Q,
    d * x == x' → d * y == y' → d * z == z' →
    d * (a * x + b * y + c * z) == a * x' + b * y' + c * z') as Hlin.
  { intros a b c x y z x' y' z' Hx Hy Hz.
    transitivity (a * (d * x) + b * (d * y) + c * (d * z)); [ring|].
    rewrite Hx, Hy, Hz. reflexivity. }
  repeat split; apply Hcancel.
  - rewrite (Hlin _ _ _ _ _ _ _ _ _ C11 C12 C13). unfold det3. ring.
  - rewrite (Hlin _ _ _ _ _ _ _ _ _ C21 C22 C23). ring.
  - rewrite (Hlin _ _ _ _ _ _ _ _ _ C31 C32 C33). ring.
  - rewrite (Hlin _ _ _ _ _ _ _ _ _ C21 C22 C23). unfold det3. ring.
  - rewrite (Hlin _ _ _ _ _ _ _ _ _ C31 C32 C33). ring.
  - rewrite (Hlin _ _ _ _ _ _ _ _ _ C31 C32 C33). unfold det3. ring.
Qed.

(** The other round trip on one point: [Tr] after its inverse. *)
Lemma rigid_roundtrip_row_back (x y z : Q) :
  rigid Tr →
  row_eq (affine Tr (affine (inverse_rigid_trans Tr) [x; y; z])) [x; y; z].
Proof.
  intros H. destruct (rigid_rows H) as (G11 & G12 & G13 & G22 & G23 & G33).
  assert (∀ g1 g2 g3 e1 e2 e3 t : Q,
    g1 == e1 → g2 == e2 → g3 == e3 →
    g1 * (x - t1) + g2 * (y - t2) + g3 * (z - t3) + t
    == e1 * (x - t1) + e2 * (y - t2) + e3 * (z - t3) + t) as Hlin.
  { intros. apply Qplus_comp; [|reflexivity].
    repeat apply Qplus_comp; apply Qmult_comp; (assumption || reflexivity). }
  cbv [array34 affine inverse_rigid_trans zeros_like set_cols03 set_col3
    assign_rows set_row03 dot_vec neg col3_of_3 transpose block33 column
    nrows rows ncols take drop map seq entry nth dotprod zip_with foldr
    length Nat.min app list_insert insert].
  row3.
  - transitivity (1 * (x - t1) + 0 * (y - t2) + 0 * (z - t3) + t1); [|ring].
    rewrite <- (Hlin _ _ _ _ _ _ t1 G11 G12 G13). ring.
  - transitivity (0 * (x - t1) + 1 * (y - t2) + 0 * (z - t3) + t2); [|ring].
    rewrite <- (Hlin _ _ _ _ _ _ t2 G12 G22 G23). ring.
  - transitivity (0 * (x - t1) + 0 * (y - t2) + 1 * (z - t3) + t3); [|ring].
    rewrite <- (Hlin _ _ _ _ _ _ t3 G13 G23 G33). ring.
Qed.

(** The inverse of a rigid transform is rigid, and inverting twice gives the
    transform back. *)
Lemma inverse_rigid_rows :
  rigid Tr →
  rigid (inverse_rigid_trans Tr)
  ∧ arr_eq (inverse_rigid_trans (inverse_rigid_trans Tr)) Tr.
Proof.
  intros H. destruct (rigid_rows H) as (G11 & G12 & G13 & G22 & G23 & G33).
  split.
  - split; [reflexivity|].
    cbv [array34 rigid inverse_rigid_trans zeros_like set_cols03 set_col3
      assign_rows set_row03 dot_vec neg col3_of_3 dot transpose block33
      column nrows rows ncols take drop map seq entry nth dotprod zip_with
      foldr length Nat.min app list_insert insert eye3].
    apply List.Forall2_cons; [|apply List.Forall2_cons;
      [|apply List.Forall2_cons; [|apply List.Forall2_nil]]]; row3;
      first
        [ transitivity (r11 * r11 + r12 * r12 + r13 * r13); [ring|exact G11]
        | transitivity (r11 * r21 + r12 * r22 + r13 * r23); [ring|exact G12]
        | transitivity (r11 * r31 + r12 * r32 + r13 * r33); [ring|exact G13]
        | transitivity (r21 * r21 + r22 * r22 + r23 * r23); [ring|exact G22]
        | transitivity (r21 * r31 + r22 * r32 + r23 * r33); [ring|exact G23]
        | transitivity (r31 * r31 + r32 * r32 + r33 * r33); [ring|exact G33] ].
  - split; [reflexivity|].
    cbv [array34 inverse_rigid_trans zeros_like set_cols03 set_col3
      assign_rows set_row03 dot_vec neg col3_of_3 dot transpose block33
      column nrows rows ncols take drop map seq entry nth dotprod zip_with
      foldr length Nat.min app list_insert insert].
    assert (∀ g1 g2 g3 e1 e2 e3 : Q,
      g1 == e1 → g2 == e2 → g3 == e3 →
      g1 * t1 + g2 * t2 + g3 * t3 == e1 * t1 + e2 * t2 + e3 * t3) as Hlin.
    { intros. repeat apply Qplus_comp; apply Qmult_comp;
        (assumption || reflexivity). }
    apply List.Forall2_cons; [|apply List.Forall2_cons;
      [|apply List.Forall2_cons; [|apply List.Forall2_nil]]];
      unfold row_eq;
      (apply List.Forall2_cons; [reflexivity|];
       apply List.Forall2_cons; [reflexivity|];
       apply List.Forall2_cons; [reflexivity|];
       apply List.Forall2_cons; [|apply List.Forall2_nil]).
    + transitivity (1 * t1 + 0 * t2 + 0 * t3); [|ring].
      rewrite <- (Hlin _ _ _ _ _ _ G11 G12 G13). ring.
    + transitivity (0 * t1 + 1 * t2 + 0 * t3); [|ring].
      rewrite <- (Hlin _ _ _ _ _ _ G12 G22 G23). ring.
    + transitivity (0 * t1 + 0 * t2 + 1 * t3); [|ring].
      rewrite <- (Hlin _ _ _ _ _ _ G13 G23 G33). ring.
Qed.

End RigidRows.

(** ** The rectification and its inverse *)

Lemma inv_roundtrip_row_back (a b c d e f g h i : Q) (r0_inv : ndarray)
    (x y z : Q) :
  inv (array33 a b c d e f g h i) = inl r0_inv →
  row_eq (mat_vec (array33 a b c d e f g h i) (mat_vec r0_inv [x; y; z]))
         [x; y; z].
Proof.
  unfold inv. simpl.
  destruct (Qeq_bool (det3 a b c d e f g h i) 0) eqn:E; [done|].
  apply Qeq_bool_neq in E. intros [= <-].
  cbv [array33 mat_vec rows map dotprod zip_with foldr].
  unfold det3 in *.
  row3; field; exact E.
Qed.

Lemma shaped_mat_vec_rows (m : ndarray) (l : list (list Q)) :
  shaped (NdArray (nrows m) (map (mat_vec m) l)).
Proof.
  apply shaped_map. intros q. unfold mat_vec, nrows. apply length_map.
Qed.

Lemma mat_vec_proper (m : ndarray) (p p' : list Q) :
  row_eq p p' → row_eq (mat_vec m p) (mat_vec m p').
Proof.
  intros Hp. unfold mat_vec, row_eq.
  induction (rows m) as [|mr l IH]; simpl;
    [apply List.Forall2_nil|apply List.Forall2_cons; [|exact IH]].
  apply dotprod_proper; [apply row_eq_refl|exact Hp].
Qed.

(** The inverse of the [R0] of a constructed object, when there is one. *)
Lemma constructed_inv (p v r : list Q) :
  length r = 9%nat → invertible (R0 (engine_of p v r)) →
  ∃ r0_inv, inv (R0 (engine_of p v r)) = inl r0_inv ∧ nrows r0_inv = 3%nat.
Proof.
  intros Lr Hinv.
  destruct r as [|a [|b [|c [|d [|e [|f [|g [|h [|i [|? ?]]]]]]]]]];
    try discriminate.
  exact (inv_defined a b c d e f g h i Hinv).
Qed.

Lemma constructed_inv_rows (p v r : list Q) (r0_inv : ndarray) (x y z : Q) :
  length r = 9%nat → inv (R0 (engine_of p v r)) = inl r0_inv →
  row_eq (mat_vec r0_inv (mat_vec (R0 (engine_of p v r)) [x; y; z])) [x; y; z]
  ∧ row_eq (mat_vec (R0 (engine_of p v r)) (mat_vec r0_inv [x; y; z]))
           [x; y; z]
  ∧ ∀ q, length (mat_vec r0_inv q) = 3%nat.
Proof.
  intros Lr Hinv.
  destruct r as [|a [|b [|c [|d [|e [|f [|g [|h [|i [|? ?]]]]]]]]]];
    try discriminate.
  split; [exact (inv_roundtrip_row a b c d e f g h i r0_inv x y z Hinv)|].
  split; [exact (inv_roundtrip_row_back a b c d e f g h i r0_inv x y z Hinv)|].
  intros q. unfold inv in Hinv. simpl in Hinv.
  destruct (Qeq_bool (det3 a b c d e f g h i) 0); [discriminate|].
  injection Hinv as <-. reflexivity.
Qed.

Lemma constructed_rigid_rows (p v r : list Q) (x y z : Q) :
  length v = 12%nat → rigid (V2C (engine_of p v r)) →
  row_eq (affine (C2V (engine_of p v r))
            (affine (V2C (engine_of p v r)) [x; y; z])) [x; y; z]
  ∧ row_eq (affine (V2C (engine_of p v r))
              (affine (C2V (engine_of p v r)) [x; y; z])) [x; y; z].
Proof.
  intros Lv Hrigid.
  destruct v as [|r11 [|r12 [|r13 [|t1 [|r21 [|r22 [|r23 [|t2 [|r31 [|r32
    [|r33 [|t3 [|? ?]]]]]]]]]]]]]; try discriminate.
  split.
  - exact (rigid_roundtrip_row r11 r12 r13 t1 r21 r22 r23 t2 r31 r32 r33 t3
             x y z Hrigid).
  - exact (rigid_roundtrip_row_back r11 r12 r13 t1 r21 r22 r23 t2 r31 r32
             r33 t3 x y z Hrigid).
Qed.

(** X1. For a constructed object with an invertible [R0] and an [n x 3]
    array, [_project_rect_to_ref] after [_project_ref_to_rect] returns and
    gives back every point. *)
Theorem ref_rect_ref_roundtrip (calibs : gmap string (list Q))
    (eng : FrustumProposal) (pts : ndarray) :
  init calibs = inl eng → invertible (R0 eng) → cloud 3 pts →
  ∃ out, _project_rect_to_ref eng (_project_ref_to_rect eng pts) = inl out
         ∧ arr_eq out pts.
Proof.
  intros Hinit Hinv [Hc Hs].
  apply init_inv in Hinit as (p & v & r & (_ & _ & _ & Lp & Lv & Lr) & ->).
  destruct (constructed_inv p v r Lr Hinv) as (r0_inv & Hr0 & Hn).
  rewrite ref_to_rect_rows by done.
  erewrite rect_to_ref_rows; [|apply shaped_map|exact Hr0].
  2:{ intros q. unfold mat_vec. apply length_map. }
  eexists. split; [reflexivity|].
  split; [cbn [ncols]; by rewrite Hn, Hc|].
  rewrite !rows_mk, map_map.
  apply rows3_pointwise; [by rewrite <- Hc|].
  intros x y z. by apply (constructed_inv_rows p v r).
Qed.

Lemma ref_rect_ref_roundtrip_witness :
  ∃ out, _project_rect_to_ref engine_ok
           (_project_ref_to_rect engine_ok points_ok) = inl out
         ∧ arr_eq out points_ok.
Proof.
  apply (ref_rect_ref_roundtrip calibs_ok engine_ok points_ok).
  - exact init_calibs_ok.
  - vm_compute. discriminate.
  - exact points_ok_cloud.
Defined.

(** X2. In the other order: [_project_rect_to_ref] returns, and
    [_project_ref_to_rect] of its result gives back every point. *)
Theorem rect_ref_rect_roundtrip (calibs : gmap string (list Q))
    (eng : FrustumProposal) (pts : ndarray) :
  init calibs = inl eng → invertible (R0 eng) → cloud 3 pts →
  ∃ ref, _project_rect_to_ref eng pts = inl ref
         ∧ arr_eq (_project_ref_to_rect eng ref) pts.
Proof.
  intros Hinit Hinv [Hc Hs].
  apply init_inv in Hinit as (p & v & r & (_ & _ & _ & Lp & Lv & Lr) & ->).
  destruct (engine_shaped p v r Lp Lv Lr) as (_ & _ & _ & _ & _ & _ & _ & HRn).
  destruct (constructed_inv p v r Lr Hinv) as (r0_inv & Hr0 & Hn).
  erewrite rect_to_ref_rows; [|exact Hs|exact Hr0].
  eexists. split; [reflexivity|].
  rewrite ref_to_rect_rows by apply shaped_mat_vec_rows.
  split; [cbn [ncols]; by rewrite HRn, Hc|].
  rewrite !rows_mk, map_map.
  apply rows3_pointwise; [by rewrite <- Hc|].
  intros x y z. by apply (constructed_inv_rows p v r).
Qed.

Lemma rect_ref_rect_roundtrip_witness :
  ∃ ref, _project_rect_to_ref engine_ok points_ok = inl ref
         ∧ arr_eq (_project_ref_to_rect engine_ok ref) points_ok.
Proof.
  apply (rect_ref_rect_roundtrip calibs_ok engine_ok points_ok).
  - exact init_calibs_ok.
  - vm_compute. discriminate.
  - exact points_ok_cloud.
Defined.

(** ** The rigid transform, in the other order *)

(** X3. For a constructed object whose [V2C] is rigid and an [n x 3] array,
    [_project_velo_to_ref] after [_project_ref_to_velo] gives back every
    point: the [C2V] of [__init__] is a two-sided inverse of [V2C]. *)
Theorem ref_velo_ref_roundtrip (calibs : gmap string (list Q))
    (eng : FrustumProposal) (pts : ndarray) :
  init calibs = inl eng → rigid (V2C eng) → cloud 3 pts →
  arr_eq (_project_velo_to_ref eng (_project_ref_to_velo eng pts)) pts.
Proof.
  intros Hinit Hrigid [Hc Hs].
  apply init_inv in Hinit as (p & v & r & (_ & _ & _ & Lp & Lv & Lr) & ->).
  destruct (engine_shaped p v r Lp Lv Lr) as (_ & HV & HC & _ & _ & HVn & _).
  rewrite ref_to_velo_rows by done. rewrite velo_to_ref_rows by done.
  split; [cbn [ncols]; by rewrite HVn, Hc|].
  rewrite !rows_mk, map_map.
  apply rows3_pointwise; [by rewrite <- Hc|].
  intros x y z. by apply (constructed_rigid_rows p v r).
Qed.

Lemma ref_velo_ref_roundtrip_witness :
  arr_eq (_project_velo_to_ref engine_ok
            (_project_ref_to_velo engine_ok points_ok)) points_ok.
Proof.
  apply (ref_velo_ref_roundtrip calibs_ok engine_ok points_ok).
  - exact init_calibs_ok.
  - exact engine_ok_rigid.
  - exact points_ok_cloud.
Defined.

(** X4. For a constructed object with rigid [V2C] and invertible [R0],
    [project_rect_to_velo] returns and [_project_velo_to_rect] of its result
    gives back every point of an [n x 3] array. *)
Theorem rect_velo_rect_roundtrip (calibs : gmap string (list Q))
    (eng : FrustumProposal) (pts : ndarray) :
  init calibs = inl eng → rigid (V2C eng) → invertible (R0 eng) →
  cloud 3 pts →
  ∃ velo, project_rect_to_velo eng pts = inl velo
          ∧ arr_eq (_project_velo_to_rect eng velo) pts.
Proof.
  intros Hinit Hrigid Hinv [Hc Hs].
  apply init_inv in Hinit as (p & v & r & (_ & _ & _ & Lp & Lv & Lr) & ->).
  destruct (engine_shaped p v r Lp Lv Lr)
    as (_ & HV & HC & _ & _ & _ & _ & HRn).
  destruct (constructed_inv p v r Lr Hinv) as (r0_inv & Hr0 & Hn).
  erewrite rect_to_velo_rows; [|exact HC|exact Hs|exact Hr0].
  eexists. split; [reflexivity|].
  rewrite velo_to_rect_rows by done.
  split; [cbn [ncols]; by rewrite HRn, Hc|].
  rewrite !rows_mk, map_map.
  apply rows3_pointwise; [by rewrite <- Hc|].
  intros x y z.
  destruct (constructed_inv_rows p v r r0_inv x y z Lr Hr0)
    as (_ & Hback & Hlen).
  eapply row_eq_trans; [|exact Hback].
  apply mat_vec_proper.
  specialize (Hlen [x; y; z]).
  destruct (mat_vec r0_inv [x; y; z]) as [|x' [|y' [|z' [|? ?]]]];
    try discriminate.
  by apply (constructed_rigid_rows p v r).
Qed.

Lemma rect_velo_rect_roundtrip_witness :
  ∃ velo, project_rect_to_velo engine_ok points_ok = inl velo
          ∧ arr_eq (_project_velo_to_rect engine_ok velo) points_ok.
Proof.
  apply (rect_velo_rect_roundtrip calibs_ok engine_ok points_ok).
  - exact init_calibs_ok.
  - exact engine_ok_rigid.
  - vm_compute. discriminate.
  - exact points_ok_cloud.
Defined.

(** X5.  When the [V2C] of a constructed object is rigid, so is the [C2V]
    that [__init__] computes with [inverse_rigid_trans], and
    [inverse_rigid_trans] of that [C2V] is [V2C] again. *)
Theorem inverse_rigid_trans_involutive (calibs : gmap string (list Q))
    (eng : FrustumProposal) :
  init calibs = inl eng → rigid (V2C eng) →
  C2V eng = inverse_rigid_trans (V2C eng)
  ∧ rigid (C2V eng)
  ∧ arr_eq (inverse_rigid_trans (C2V eng)) (V2C eng).
Proof.
  intros Hinit Hrigid.
  apply init_inv in Hinit as (p & v & r & (_ & _ & _ & Lp & Lv & Lr) & ->).
  split; [reflexivity|].
  destruct v as [|r11 [|r12 [|r13 [|t1 [|r21 [|r22 [|r23 [|t2 [|r31 [|r32
    [|r33 [|t3 [|? ?]]]]]]]]]]]]]; try discriminate.
  exact (inverse_rigid_rows r11 r12 r13 t1 r21 r22 r23 t2 r31 r32 r33 t3
           Hrigid).
Qed.

Lemma inverse_rigid_trans_involutive_witness :
  C2V engine_ok = inverse_rigid_trans (V2C engine_ok)
  ∧ rigid (C2V engine_ok)
  ∧ arr_eq (inverse_rigid_trans (C2V engine_ok)) (V2C engine_ok).
Proof.
  apply (inverse_rigid_trans_involutive calibs_ok engine_ok).
  - exact init_calibs_ok.
  - exact engine_ok_rigid.
Defined.

(** ** Construction *)

(** X6. [__init__] succeeds exactly on the mappings that hold the three keys
    with 12, 12 and 9 values, and then the object is made of the three
    reshaped buffers and of [inverse_rigid_trans] of the second. *)
Theorem init_succeeds_iff (calibs : gmap string (list Q))
    (eng : FrustumProposal) :
  init calibs = inl eng
  ↔ ∃ p v r, calibrated calibs p v r ∧ eng = engine_of p v r.
Proof.
  split; [apply init_inv|].
  intros (p & v & r & Hcal & ->). by apply init_ok.
Qed.

(** X7. The buffers are read row-major: entry [(i, j)] of [P] and of [V2C]
    is value [4 i + j] of its buffer, entry [(i, j)] of [R0] is value
    [3 i + j]; [P] and [V2C] are 3x4, [R0] is 3x3. *)
Theorem init_row_major (calibs : gmap string (list Q))
    (eng : FrustumProposal) :
  init calibs = inl eng →
  ∃ p v r,
    calibs !! "P"%string = Some p
    ∧ calibs !! "Tr_velo_to_cam"%string = Some v
    ∧ calibs !! "R0_rect"%string = Some r
    ∧ (cloud 4 (P eng) ∧ nrows (P eng) = 3%nat)
    ∧ (cloud 4 (V2C eng) ∧ nrows (V2C eng) = 3%nat)
    ∧ (cloud 3 (R0 eng) ∧ nrows (R0 eng) = 3%nat)
    ∧ ∀ i j, (i < 3)%nat →
        ((j < 4)%nat →
           entry j (nth i (rows (P eng)) []) = nth (4 * i + j) p 0
           ∧ entry j (nth i (rows (V2C eng)) []) = nth (4 * i + j) v 0)
        ∧ ((j < 3)%nat →
           entry j (nth i (rows (R0 eng)) []) = nth (3 * i + j) r 0).
Proof.
  intros Hinit.
  apply init_inv in Hinit as (p & v & r & (Hp & Hv & Hr & Lp & Lv & Lr) & ->).
  exists p, v, r.
  destruct (engine_shaped p v r Lp Lv Lr)
    as (HP & HV & _ & HR & HPn & HVn & _ & HRn).
  do 3 (split; [done|]).
  do 3 (split; [done|]).
  do 12 (destruct p as [|? p]; [discriminate|]). destruct p; [|discriminate].
  do 12 (destruct v as [|? v]; [discriminate|]). destruct v; [|discriminate].
  do 9 (destruct r as [|? r]; [discriminate|]). destruct r; [|discriminate].
  intros i j Hi.
  destruct i as [|[|[|i]]]; [| | |lia]; (split; intros Hj;
    [destruct j as [|[|[|[|j]]]]; [| | | |lia]
    |destruct j as [|[|[|j]]]; [| | |lia]]); done.
Qed.

Lemma init_row_major_witness :
  ∃ p v r,
    calibs_ok !! "P"%string = Some p
    ∧ calibs_ok !! "Tr_velo_to_cam"%string = Some v
    ∧ calibs_ok !! "R0_rect"%string = Some r
    ∧ (cloud 4 (P engine_ok) ∧ nrows (P engine_ok) = 3%nat)
    ∧ (cloud 4 (V2C engine_ok) ∧ nrows (V2C engine_ok) = 3%nat)
    ∧ (cloud 3 (R0 engine_ok) ∧ nrows (R0 engine_ok) = 3%nat)
    ∧ ∀ i j, (i < 3)%nat →
        ((j < 4)%nat →
           entry j (nth i (rows (P engine_ok)) []) = nth (4 * i + j) p 0
           ∧ entry j (nth i (rows (V2C engine_ok)) []) = nth (4 * i + j) v 0)
        ∧ ((j < 3)%nat →
           entry j (nth i (rows (R0 engine_ok)) []) = nth (3 * i + j) r 0).
Proof. exact (init_row_major calibs_ok engine_ok init_calibs_ok). Defined.

(** X8. [__init__] reads the three keys only: adding, changing or removing
    any other key of the mapping changes neither its outcome nor the object
    it builds. *)
Theorem init_ignores_other_keys (calibs : gmap string (list Q))
    (k : string) (b : list Q) :
  k ≠ "P"%string → k ≠ "Tr_velo_to_cam"%string → k ≠ "R0_rect"%string →
  init (<[k := b]> calibs) = init calibs
  ∧ init (delete k calibs) = init calibs.
Proof.
  intros HP HV HR. rewrite !init_cases.
  rewrite !lookup_insert_ne, !lookup_delete_ne by done. done.
Qed.

Lemma init_ignores_other_keys_witness :
  init (<["Tr_imu_to_velo"%string := [1; 2; 3]]> calibs_ok) = init calibs_ok
  ∧ init (delete "Tr_imu_to_velo"%string calibs_ok) = init calibs_ok.
Proof.
  apply (init_ignores_other_keys calibs_ok "Tr_imu_to_velo" [1; 2; 3]);
    discriminate.
Defined.

(** ** The projection to the image *)

(** X9. For a constructed object and an [n x 3] array, the batched matrix
    code of [_project_velo_to_rect] and [_project_velo_to_image] computes,
    row by row, the formula of the file's header:
    [x = P * R0_rect * Tr_velo_to_cam * y] on homogeneous points, followed by
    the division by the third coordinate. *)
Theorem velo_to_image_formula (calibs : gmap string (list Q))
    (eng : FrustumProposal) (pc : ndarray) :
  init calibs = inl eng → cloud 3 pc →
  _project_velo_to_rect eng pc
  = NdArray 3 (map (λ y, mat_vec (R0 eng) (affine (V2C eng) y)) (rows pc))
  ∧ _project_velo_to_image eng pc = map (pixel eng) (rows pc).
Proof.
  intros Hinit [Hc Hs].
  apply init_inv in Hinit as (p & v & r & (_ & _ & _ & Lp & Lv & Lr) & ->).
  destruct (engine_shaped p v r Lp Lv Lr)
    as (HP & HV & _ & _ & _ & _ & _ & HRn).
  split; [rewrite velo_to_rect_rows by done; by rewrite HRn|].
  by apply velo_to_image_rows.
Qed.

Lemma velo_to_image_formula_witness :
  _project_velo_to_rect engine_ok points_ok
  = NdArray 3 (map (λ y, mat_vec (R0 engine_ok) (affine (V2C engine_ok) y))
                 (rows points_ok))
  ∧ _project_velo_to_image engine_ok points_ok
    = map (pixel engine_ok) (rows points_ok).
Proof.
  exact (velo_to_image_formula calibs_ok engine_ok points_ok
           init_calibs_ok points_ok_cloud).
Defined.

Lemma xdiv_zero_not_in_box (xmin ymin xmax ymax a b c : Q) :
  c == 0 → in_box xmin ymin xmax ymax [xdiv a c; xdiv b c] = false.
Proof.
  intros Hc. unfold in_box, xdiv, xentry. simpl.
  rewrite (proj2 (Qeq_bool_iff c 0) Hc).
  destruct (Qcompare a 0); reflexivity.
Qed.

(** X10. A point whose homogeneous image depth is zero is never kept by
    [_get_lidar_in_image_fov], whatever the bounds and the clip distance:
    the division gives an infinity or [nan], no exception, and every
    comparison chain on it is false. *)
Theorem zero_depth_never_kept (calibs : gmap string (list Q))
    (eng : FrustumProposal) (pc : ndarray) (xmin ymin xmax ymax clip : Q)
    (sub : ndarray) (pts_2d : list (list xval)) (fov_inds : list bool)
    (i : nat) (p : list Q) :
  init calibs = inl eng → cloud 3 pc →
  _get_lidar_in_image_fov eng pc xmin ymin xmax ymax true clip
    = FovMore sub pts_2d fov_inds →
  rows pc !! i = Some p →
  entry 2 (affine (P eng) (mat_vec (R0 eng) (affine (V2C eng) p))) == 0 →
  fov_inds !! i = Some false ∧ p ∉ rows sub.
Proof.
  intros Hinit [Hc Hs] Hfov Hp Hdepth.
  apply init_inv in Hinit as (bp & v & r & (_ & _ & _ & Lp & Lv & Lr) & ->).
  destruct (engine_shaped bp v r Lp Lv Lr) as (HP & HV & _).
  set (eng := engine_of bp v r) in *.
  pose proof (fov_more _ _ _ _ _ _ _ _ _ _ Hfov) as (Hpts & Hinds & Hsub).
  rewrite (velo_to_image_rows eng pc HV HP Hs) in Hpts.
  assert (∀ j q, rows pc !! j = Some q → q = p →
                 fov_inds !! j = Some false) as Hfalse.
  { intros j q Hq ->. rewrite Hinds.
    erewrite fov_inds_lookup; [| |exact Hq].
    2:{ rewrite Hpts. change map with (@fmap list _).
        by rewrite list_lookup_fmap, Hq. }
    unfold pixel. by rewrite xdiv_zero_not_in_box. }
  split; [by apply (Hfalse i p)|].
  intros Hin. rewrite Hsub, rows_take_mask in Hin.
  apply select_elem in Hin as (j & Hj & Hpj).
  rewrite (Hfalse j p Hpj eq_refl) in Hj. discriminate.
Qed.

Lemma zero_depth_never_kept_witness :
  ∃ sub pts_2d fov_inds,
    _get_lidar_in_image_fov engine_identity (cols03 cloud_scenario)
      0 0 100 100 true default_clip_distance
    = FovMore sub pts_2d fov_inds
    ∧ fov_inds !! 0%nat = Some false ∧ [5; 0; 0] ∉ rows sub.
Proof.
  eexists _, _, _. split; [reflexivity|].
  eapply (zero_depth_never_kept calibs_identity engine_identity
            (cols03 cloud_scenario) 0 0 100 100 default_clip_distance
            _ _ _ 0%nat [5; 0; 0]).
  - vm_compute. reflexivity.
  - split; [reflexivity|]. unfold shaped. vm_compute. rows_eq.
  - reflexivity.
  - reflexivity.
  - vm_compute. reflexivity.
Defined.

(** ** The dtype of the cloud *)

Lemma assign_rows_ext {B} (f g : list Q → B → list Q)
    (a : list (list Q)) (b : list B) :
  (∀ r x, f r x = g r x) → assign_rows f a b = assign_rows g a b.
Proof.
  intros Hfg. revert b. induction a as [|r a IH]; intros [|x b]; simpl;
    try done. by rewrite Hfg, IH.
Qed.

Lemma set_cols03_float (a b : ndarray) :
  set_cols03_dt Float64 a b = set_cols03 a b.
Proof.
  unfold set_cols03_dt, set_cols03. f_equal. apply assign_rows_ext.
  intros r new. by rewrite map_id.
Qed.

Lemma set_col3_float (a : ndarray) (v : list Q) :
  set_col3_dt Float64 a v = set_col3 a v.
Proof. reflexivity. Qed.

Section Float.

Variable self : FrustumProposal.

Lemma rect_cloud_float (pc_velo : ndarray) :
  rect_cloud_dt self Float64 pc_velo = rect_cloud self pc_velo.
Proof.
  unfold rect_cloud_dt, rect_cloud. by rewrite set_col3_float, set_cols03_float.
Qed.

Lemma velo_fov_float (sub : ndarray) :
  velo_fov_dt self Float64 sub = velo_fov self sub.
Proof.
  unfold velo_fov_dt, velo_fov.
  destruct (project_rect_to_velo self (cols03 sub)) as [xyz|e]; simpl; [|done].
  by rewrite set_col3_float, set_cols03_float.
Qed.

Lemma proposal_loop_float (pc_rect : ndarray)
    (pc_image_coord : list (list xval)) (img_fov_inds : list bool)
    (boxes2d : list (Q * Q * Q * Q)) (acc acc_velo : list ndarray) :
  proposal_loop_dt self Float64 pc_rect pc_image_coord img_fov_inds boxes2d
    acc acc_velo
  = proposal_loop self pc_rect pc_image_coord img_fov_inds boxes2d
      acc acc_velo.
Proof.
  revert acc acc_velo. induction boxes2d as [|box rest IH];
    intros acc acc_velo; simpl; [done|].
  rewrite velo_fov_float.
  destruct (velo_fov self _) as [velo|e]; simpl; [apply IH|done].
Qed.

(** The extraction on a float64 cloud. *)
Lemma get_frustum_proposal_float (img_shape : Z * Z * Z)
    (boxes2d : list (Q * Q * Q * Q)) (pc_velo : ndarray) :
  get_frustum_proposal_dt self Float64 img_shape boxes2d pc_velo
  = get_frustum_proposal self img_shape boxes2d pc_velo.
Proof.
  destruct img_shape as [[h w] c].
  unfold get_frustum_proposal_dt, get_frustum_proposal.
  cbn [_get_lidar_in_image_fov].
  by rewrite rect_cloud_float, proposal_loop_float.
Qed.

Variable dt : dtype.

(** The loop, for a cloud of any dtype. *)
Lemma proposal_loop_dt_spec (pc_rect : ndarray)
    (pc_image_coord : list (list xval)) (img_fov_inds : list bool)
    (boxes2d : list (Q * Q * Q * Q)) (acc acc_velo out out_velo : list ndarray) :
  proposal_loop_dt self dt pc_rect pc_image_coord img_fov_inds boxes2d
    acc acc_velo = inl (out, out_velo) →
  ∃ velos,
    out = (acc ++ map (λ box,
             take_mask (box_fov_inds pc_image_coord img_fov_inds box) pc_rect)
             boxes2d)%list
    ∧ out_velo = (acc_velo ++ velos)%list
    ∧ length velos = length boxes2d.
Proof.
  revert acc acc_velo.
  induction boxes2d as [|box rest IH]; intros acc acc_velo Hloop; simpl in Hloop.
  - injection Hloop as <- <-. exists []. by rewrite !app_nil_r.
  - destruct (velo_fov_dt self dt (take_mask
        (box_fov_inds pc_image_coord img_fov_inds box) pc_rect))
      as [velo|e] eqn:Hvelo; simpl in Hloop; [|discriminate].
    destruct (IH _ _ Hloop) as (velos & -> & -> & Hlen).
    exists (velo :: velos). rewrite <- !app_assoc. simpl.
    split; [done|]. split; [done|]. by rewrite Hlen.
Qed.

Lemma get_frustum_proposal_dt_spec (img_shape : Z * Z * Z)
    (boxes2d : list (Q * Q * Q * Q)) (pc_velo : ndarray)
    (out out_velo : list ndarray) :
  get_frustum_proposal_dt self dt img_shape boxes2d pc_velo
    = inl (out, out_velo) →
  ∃ sub pc_image_coord img_fov_inds,
    _get_lidar_in_image_fov self (cols03 pc_velo) 0 0
      (inject_Z img_shape.1.2) (inject_Z img_shape.1.1) true
      default_clip_distance
    = FovMore sub pc_image_coord img_fov_inds
    ∧ out = map (λ box,
              take_mask (box_fov_inds pc_image_coord img_fov_inds box)
                (rect_cloud_dt self dt pc_velo)) boxes2d.
Proof.
  destruct img_shape as [[h w] c]. unfold get_frustum_proposal_dt.
  intros Hloop. eexists _, _, _. split; [reflexivity|].
  cbn [_get_lidar_in_image_fov] in Hloop.
  apply proposal_loop_dt_spec in Hloop as (velos & -> & _ & _). done.
Qed.

End Float.

Lemma extraction_float_ok_returns :
  ∃ fp fpv,
    get_frustum_proposal_dt engine_ok Float64 (100, 100, 3)%Z boxes_ok cloud_ok
    = inl (fp, fpv)
    ∧ length fp = 3%nat.
Proof. vm_compute. eexists _, _. done. Qed.

(** ** The extraction as a filter *)

Lemma zip_with_map2 {A B C D} (f : B → C → D) (g : A → B) (h : A → C)
    (l : list A) :
  zip_with f (map g l) (map h l) = map (λ x, f (g x) (h x)) l.
Proof. induction l as [|x l IH]; simpl; [done|]. by rewrite IH. Qed.

Lemma select_map_filter {A B} (t : A → bool) (g : A → B) (l : list A) :
  select (map t l) (map g l) = map g (List.filter t l).
Proof.
  induction l as [|x l IH]; simpl; [done|].
  destruct (t x); simpl; by rewrite IH.
Qed.

Lemma entry0_take3 (p : list Q) : entry 0 (take 3 p) = entry 0 p.
Proof. by destruct p. Qed.

Lemma rect_row_parts (self : FrustumProposal) (p : list Q) :
  nrows (R0 self) = 3%nat →
  take 3 (rect_row self p) = mat_vec (R0 self) (affine (V2C self) (take 3 p))
  ∧ entry 3 (rect_row self p) = entry 3 p
  ∧ length (rect_row self p) = 4%nat.
Proof.
  intros HRn.
  assert (length (mat_vec (R0 self) (affine (V2C self) (take 3 p))) = 3%nat)
    as Hlen by (unfold mat_vec; by rewrite length_map).
  unfold rect_row.
  destruct (mat_vec (R0 self) (affine (V2C self) (take 3 p)))
    as [|x [|y [|z [|? ?]]]]; try discriminate.
  done.
Qed.

Section Filter.

Variable self : FrustumProposal.
Hypothesis HP : shaped (P self).
Hypothesis HV : shaped (V2C self).
Hypothesis HC : shaped (C2V self).
Hypothesis HCn : nrows (C2V self) = 3%nat.
Hypothesis HRn : nrows (R0 self) = 3%nat.

(** The mask of a box is the test [in_frustum] on every row of the cloud. *)
Lemma frustum_mask_map (img_shape : Z * Z * Z) (box2d : Q * Q * Q * Q)
    (pc_velo sub : ndarray) (pc_image_coord : list (list xval))
    (img_fov_inds : list bool) :
  cloud 4 pc_velo →
  _get_lidar_in_image_fov self (cols03 pc_velo) 0 0
    (inject_Z img_shape.1.2) (inject_Z img_shape.1.1) true
    default_clip_distance
  = FovMore sub pc_image_coord img_fov_inds →
  img_fov_inds
  = map (λ p, in_box 0 0 (inject_Z img_shape.1.2) (inject_Z img_shape.1.1)
                (pixel self (take 3 p))
              && Qltb default_clip_distance (entry 0 p)) (rows pc_velo)
  ∧ box_fov_inds pc_image_coord img_fov_inds box2d
    = map (in_frustum self img_shape box2d) (rows pc_velo).
Proof.
  intros Hpc Hfov. destruct (cols03_cloud _ Hpc) as [_ Hs3].
  apply fov_more in Hfov as (Hcoords & Hinds & _).
  rewrite (velo_to_image_rows self _ HV HP Hs3) in Hcoords.
  unfold cols03 in Hcoords. rewrite rows_mk, map_map in Hcoords.
  assert (img_fov_inds
    = map (λ p, in_box 0 0 (inject_Z img_shape.1.2) (inject_Z img_shape.1.1)
                  (pixel self (take 3 p))
                && Qltb default_clip_distance (entry 0 p)) (rows pc_velo))
    as Himg.
  { rewrite Hinds, Hcoords. unfold box_mask, column, cols03.
    rewrite rows_mk, !map_map, zip_with_map2.
    apply map_ext. intros p. by rewrite entry0_take3. }
  split; [exact Himg|].
  destruct img_shape as [[h w] c]. destruct box2d as [[[xmin ymin] xmax] ymax].
  unfold box_fov_inds. rewrite Himg, Hcoords. unfold box_mask.
  rewrite map_map, zip_with_map2. reflexivity.
Qed.

(** The two lists that the extraction returns, box by box. *)
Lemma extraction_filter_form (img_shape : Z * Z * Z)
    (boxes2d : list (Q * Q * Q * Q)) (pc_velo : ndarray)
    (out out_velo : list ndarray) :
  cloud 4 pc_velo →
  get_frustum_proposal self img_shape boxes2d pc_velo = inl (out, out_velo) →
  out = map (λ box, NdArray 4 (map (rect_row self)
              (List.filter (in_frustum self img_shape box) (rows pc_velo))))
          boxes2d
  ∧ Forall2 (λ box velo, ∃ r0_inv,
       inv (R0 self) = inl r0_inv
       ∧ velo = NdArray 4 (map (λ p, velo_row self r0_inv (rect_row self p))
              (List.filter (in_frustum self img_shape box) (rows pc_velo))))
      boxes2d out_velo.
Proof.
  intros Hpc Hget.
  apply get_frustum_proposal_spec
    in Hget as (sub & coords & inds & Hfov & -> & Hall).
  assert (∀ box,
    take_mask (box_fov_inds coords inds box) (rect_cloud self pc_velo)
    = NdArray 4 (map (rect_row self)
        (List.filter (in_frustum self img_shape box) (rows pc_velo))))
    as Hrect.
  { intros box.
    destruct (frustum_mask_map img_shape box _ _ _ _ Hpc Hfov) as [_ ->].
    rewrite rect_cloud_rows by done. unfold take_mask.
    by rewrite rows_mk, select_map_filter. }
  split; [apply map_ext; intros box; apply Hrect|].
  eapply Forall2_impl; [exact Hall|].
  intros box velo Hv. cbn beta in Hv. rewrite Hrect in Hv.
  destruct (velo_fov_inv _ _ _ Hv) as [r0_inv Hinv].
  exists r0_inv. split; [exact Hinv|].
  rewrite (velo_fov_rows self _ r0_inv HC HCn Hinv) in Hv.
  - injection Hv as <-. try rewrite rows_mk. by rewrite map_map.
  - split; [reflexivity|]. apply shaped_map. intros p.
    by apply rect_row_parts.
Qed.

End Filter.

Lemma constructed_filter_form (calibs : gmap string (list Q))
    (eng : FrustumProposal) (img_shape : Z * Z * Z)
    (boxes2d : list (Q * Q * Q * Q)) (pc_velo : ndarray)
    (out out_velo : list ndarray) :
  init calibs = inl eng → cloud 4 pc_velo →
  get_frustum_proposal eng img_shape boxes2d pc_velo = inl (out, out_velo) →
  out = map (λ box, NdArray 4 (map (rect_row eng)
              (List.filter (in_frustum eng img_shape box) (rows pc_velo))))
          boxes2d
  ∧ Forall2 (λ box velo, ∃ r0_inv,
       inv (R0 eng) = inl r0_inv
       ∧ velo = NdArray 4 (map (λ p, velo_row eng r0_inv (rect_row eng p))
              (List.filter (in_frustum eng img_shape box) (rows pc_velo))))
      boxes2d out_velo.
Proof.
  intros Hinit Hpc Hget.
  apply init_inv in Hinit as (p & v & r & (_ & _ & _ & Lp & Lv & Lr) & ->).
  destruct (engine_shaped p v r Lp Lv Lr)
    as (HP & HV & HC & _ & _ & _ & HCn & HRn).
  by apply extraction_filter_form.
Qed.

Lemma filter_rows4 (t : list Q → bool) (pc : ndarray) :
  cloud 4 pc → Forall (λ r, length r = 4%nat) (List.filter t (rows pc)).
Proof.
  intros [Hc Hs]. unfold shaped in Hs. rewrite Hc in Hs.
  rewrite Forall_forall in *. intros r Hr.
  apply list_elem_of_In, filter_In in Hr as [Hr _].
  apply Hs. by apply list_elem_of_In.
Qed.

Lemma rows_pointwise (f : list Q → list Q) (l : list (list Q)) :
  Forall (λ r, row_eq (f r) r) l → Forall2 row_eq (map f l) l.
Proof.
  induction 1 as [|r l Hr _ IH]; simpl;
    [apply List.Forall2_nil|by apply List.Forall2_cons].
Qed.

(** One cloud row, to the rectified frame and back. *)
Lemma velo_row_rect_row (p v r : list Q) (r0_inv : ndarray) (q : list Q) :
  length p = 12%nat → length v = 12%nat → length r = 9%nat →
  rigid (V2C (engine_of p v r)) → inv (R0 (engine_of p v r)) = inl r0_inv →
  length q = 4%nat →
  row_eq (velo_row (engine_of p v r) r0_inv (rect_row (engine_of p v r) q)) q.
Proof.
  intros Lp Lv Lr Hrigid Hinv Hq.
  destruct (engine_shaped p v r Lp Lv Lr)
    as (_ & _ & _ & _ & _ & HVn & _ & HRn).
  set (eng := engine_of p v r) in *.
  destruct (rect_row_parts eng q HRn) as (Htake & Hentry & _).
  unfold velo_row. rewrite Htake, Hentry.
  destruct q as [|x [|y [|z [|w [|? ?]]]]]; try discriminate.
  change (take 3 [x; y; z; w]) with [x; y; z].
  change (entry 3 [x; y; z; w]) with w.
  change [x; y; z; w] with ([x; y; z] ++ [w])%list.
  unfold row_eq. apply Forall2_app; [|by apply row_eq_refl].
  assert (length (affine (V2C eng) [x; y; z]) = 3%nat) as Hlen
    by (unfold affine; by rewrite length_map).
  destruct (affine (V2C eng) [x; y; z]) as [|x' [|y' [|z' [|? ?]]]] eqn:E;
    try discriminate.
  destruct (constructed_inv_rows p v r r0_inv x' y' z' Lr Hinv) as (Hfwd & _).
  eapply row_eq_trans; [apply affine_proper; exact Hfwd|].
  rewrite <- E.
  exact (proj1 (constructed_rigid_rows p v r x y z Lv Hrigid)).
Qed.

Lemma constructed_mask_form (calibs : gmap string (list Q))
    (eng : FrustumProposal) (dt : dtype) (img_shape : Z * Z * Z)
    (boxes2d : list (Q * Q * Q * Q)) (pc_velo : ndarray)
    (out out_velo : list ndarray) :
  init calibs = inl eng → cloud 4 pc_velo →
  get_frustum_proposal_dt eng dt img_shape boxes2d pc_velo
    = inl (out, out_velo) →
  out = map (λ box,
          take_mask (map (in_frustum eng img_shape box) (rows pc_velo))
            (rect_cloud_dt eng dt pc_velo)) boxes2d.
Proof.
  intros Hinit Hpc Hget.
  apply init_inv in Hinit as (p & v & r & (_ & _ & _ & Lp & Lv & Lr) & ->).
  destruct (engine_shaped p v r Lp Lv Lr) as (HP & HV & _).
  apply get_frustum_proposal_dt_spec
    in Hget as (sub & coords & inds & Hfov & ->).
  apply map_ext. intros box.
  by destruct (frustum_mask_map _ HP HV img_shape box _ _ _ _ Hpc Hfov)
    as [_ ->].
Qed.

(** X11. For a constructed object and an [n x 4] cloud, the rectified-frame
    list that the extraction returns is, box by box, [pc_rect] under the
    mask that tests every cloud row with [in_frustum] (projection in the box
    and in the image, first coordinate beyond 2.0), whatever the dtype of
    the cloud.  For a float64 cloud, where the assignments into [pc_rect]
    do not cast, it is the cloud filtered by that test with every kept row
    converted by [rect_row]. *)
Theorem extraction_as_filter (calibs : gmap string (list Q))
    (eng : FrustumProposal) (dt : dtype) (img_shape : Z * Z * Z)
    (boxes2d : list (Q * Q * Q * Q)) (pc_velo : ndarray)
    (frustum_proposals frustum_proposals_velo : list ndarray) :
  init calibs = inl eng → cloud 4 pc_velo →
  get_frustum_proposal_dt eng dt img_shape boxes2d pc_velo
    = inl (frustum_proposals, frustum_proposals_velo) →
  frustum_proposals
  = map (λ box,
      take_mask (map (in_frustum eng img_shape box) (rows pc_velo))
        (rect_cloud_dt eng dt pc_velo)) boxes2d
  ∧ (dt = Float64 →
     frustum_proposals
     = map (λ box, NdArray 4 (map (rect_row eng)
             (List.filter (in_frustum eng img_shape box) (rows pc_velo))))
         boxes2d).
Proof.
  intros Hinit Hpc Hget.
  split; [by eapply constructed_mask_form|].
  intros ->. rewrite get_frustum_proposal_float in Hget.
  by destruct (constructed_filter_form _ _ _ _ _ _ _ Hinit Hpc Hget).
Qed.

Lemma extraction_as_filter_witness :
  ∃ fp fpv,
    get_frustum_proposal_dt engine_ok Float64 (100, 100, 3)%Z boxes_ok
      cloud_ok = inl (fp, fpv)
    ∧ fp = map (λ box, NdArray 4 (map (rect_row engine_ok)
             (List.filter (in_frustum engine_ok (100, 100, 3)%Z box)
                (rows cloud_ok)))) boxes_ok.
Proof.
  destruct extraction_float_ok_returns as (fp & fpv & Hget & _).
  exists fp, fpv. split; [exact Hget|].
  exact (proj2 (extraction_as_filter calibs_ok engine_ok Float64 _ _ _ _ _
                  init_calibs_ok cloud_ok_cloud Hget) eq_refl).
Defined.

(** X12. The source computes the sensor-frame subset by converting the
    rectified subset back and notes that this is equivalent to
    [pc_velo[box_fov_inds, :]].  For a constructed object with a rigid
    [V2C] and a cloud of dtype float64 it is: every sensor-frame subset
    returned is, in exact arithmetic, the cloud filtered by [in_frustum],
    rows unchanged. *)
Theorem velo_subsets_are_cloud_rows (calibs : gmap string (list Q))
    (eng : FrustumProposal) (img_shape : Z * Z * Z)
    (boxes2d : list (Q * Q * Q * Q)) (pc_velo : ndarray)
    (frustum_proposals frustum_proposals_velo : list ndarray) :
  init calibs = inl eng → rigid (V2C eng) → cloud 4 pc_velo →
  get_frustum_proposal_dt eng Float64 img_shape boxes2d pc_velo
    = inl (frustum_proposals, frustum_proposals_velo) →
  Forall2 (λ box velo,
      arr_eq velo (NdArray 4
        (List.filter (in_frustum eng img_shape box) (rows pc_velo))))
    boxes2d frustum_proposals_velo.
Proof.
  intros Hinit Hrigid Hpc Hget. rewrite get_frustum_proposal_float in Hget.
  destruct (constructed_filter_form _ _ _ _ _ _ _ Hinit Hpc Hget)
    as [_ Hall].
  apply init_inv in Hinit as (p & v & r & (_ & _ & _ & Lp & Lv & Lr) & ->).
  eapply Forall2_impl; [exact Hall|].
  intros box velo (r0_inv & Hinv & ->). split; [reflexivity|].
  rewrite !rows_mk. apply rows_pointwise.
  eapply Forall_impl; [apply filter_rows4; exact Hpc|].
  intros q Hq. by apply velo_row_rect_row.
Qed.

Lemma velo_subsets_are_cloud_rows_witness :
  ∃ fp fpv,
    get_frustum_proposal_dt engine_ok Float64 (100, 100, 3)%Z boxes_ok
      cloud_ok = inl (fp, fpv)
    ∧ Forall2 (λ box velo,
          arr_eq velo (NdArray 4
            (List.filter (in_frustum engine_ok (100, 100, 3)%Z box)
               (rows cloud_ok))))
        boxes_ok fpv.
Proof.
  destruct extraction_float_ok_returns as (fp & fpv & Hget & _).
  exists fp, fpv. split; [exact Hget|].
  exact (velo_subsets_are_cloud_rows calibs_ok engine_ok _ _ _ _ _
           init_calibs_ok engine_ok_rigid cloud_ok_cloud Hget).
Defined.

(** ** Boxes *)

Lemma filter_none {A} (t : A → bool) (l : list A) :
  (∀ x, t x = false) → List.filter t l = [].
Proof.
  intros Ht. induction l as [|x l IH]; simpl; [done|]. by rewrite Ht.
Qed.

Lemma filter_sublist {A} (t t' : A → bool) (l : list A) :
  (∀ x, t x = true → t' x = true) →
  List.filter t l `sublist_of` List.filter t' l.
Proof.
  intros Ht. induction l as [|x l IH]; simpl; [constructor|].
  destruct (t x) eqn:E.
  - rewrite (Ht x E). by constructor.
  - destruct (t' x); [by constructor|done].
Qed.

Lemma filter_all_sublist {A} (t : A → bool) (l : list A) :
  List.filter t l `sublist_of` l.
Proof.
  induction l as [|x l IH]; simpl; [constructor|].
  destruct (t x); by constructor.
Qed.

(** The pair of box [i], from the filter form. *)
Lemma constructed_pair (calibs : gmap string (list Q))
    (eng : FrustumProposal) (img_shape : Z * Z * Z)
    (boxes2d : list (Q * Q * Q * Q)) (pc_velo : ndarray)
    (out out_velo : list ndarray) (i : nat) (box : Q * Q * Q * Q) :
  init calibs = inl eng → cloud 4 pc_velo →
  get_frustum_proposal eng img_shape boxes2d pc_velo = inl (out, out_velo) →
  boxes2d !! i = Some box →
  ∃ r0_inv,
    inv (R0 eng) = inl r0_inv
    ∧ out !! i = Some (NdArray 4 (map (rect_row eng)
        (List.filter (in_frustum eng img_shape box) (rows pc_velo))))
    ∧ out_velo !! i
      = Some (NdArray 4 (map (λ p, velo_row eng r0_inv (rect_row eng p))
          (List.filter (in_frustum eng img_shape box) (rows pc_velo)))).
Proof.
  intros Hinit Hpc Hget Hbox.
  destruct (constructed_filter_form _ _ _ _ _ _ _ Hinit Hpc Hget)
    as [-> Hall].
  destruct (Forall2_lookup_l _ _ _ _ _ Hall Hbox)
    as (velo & Hvelo & r0_inv & Hinv & ->).
  exists r0_inv. split; [exact Hinv|]. split; [|exact Hvelo].
  change map with (@fmap list _) at 1. by rewrite list_lookup_fmap, Hbox.
Qed.

(** X13. The source does not validate boxes.  A box that is empty
    ([xmax <= xmin] or [ymax <= ymin]) or that lies outside the image
    gets a pair of empty [0 x 4] subsets, not an error. *)
Theorem empty_or_outside_box (calibs : gmap string (list Q))
    (eng : FrustumProposal) (img_height img_width channels : Z)
    (boxes2d : list (Q * Q * Q * Q)) (pc_velo : ndarray)
    (frustum_proposals frustum_proposals_velo : list ndarray)
    (i : nat) (xmin ymin xmax ymax : Q) :
  init calibs = inl eng → cloud 4 pc_velo →
  get_frustum_proposal eng (img_height, img_width, channels) boxes2d pc_velo
    = inl (frustum_proposals, frustum_proposals_velo) →
  boxes2d !! i = Some (xmin, ymin, xmax, ymax) →
  xmax <= xmin ∨ ymax <= ymin
  ∨ xmax <= 0 ∨ ymax <= 0
  ∨ inject_Z img_width <= xmin ∨ inject_Z img_height <= ymin →
  frustum_proposals !! i = Some (NdArray 4 [])
  ∧ frustum_proposals_velo !! i = Some (NdArray 4 []).
Proof.
  intros Hinit Hpc Hget Hbox Hout.
  destruct (constructed_pair _ _ _ _ _ _ _ _ _ Hinit Hpc Hget Hbox)
    as (r0_inv & _ & -> & ->).
  rewrite filter_none; [done|].
  intros p. unfold in_frustum.
  destruct (in_box xmin ymin xmax ymax (pixel eng (take 3 p))) eqn:E1;
    [|done].
  destruct (in_box 0 0 (inject_Z img_width) (inject_Z img_height)
              (pixel eng (take 3 p))) eqn:E2; [|done].
  exfalso.
  apply in_box_iff in E1 as (u & v & Hu & Hv & B1 & B2 & B3 & B4).
  apply in_box_iff in E2 as (u' & v' & Hu' & Hv' & I1 & I2 & I3 & I4).
  rewrite Hu in Hu'. rewrite Hv in Hv'.
  injection Hu' as <-. injection Hv' as <-.
  destruct Hout as [H|[H|[H|[H|[H|H]]]]].
  - apply (Qlt_irrefl u). eapply Qlt_le_trans; [exact B2|].
    eapply Qle_trans; [exact H|exact B1].
  - apply (Qlt_irrefl v). eapply Qlt_le_trans; [exact B4|].
    eapply Qle_trans; [exact H|exact B3].
  - apply (Qlt_irrefl u). eapply Qlt_le_trans; [exact B2|].
    eapply Qle_trans; [exact H|exact I1].
  - apply (Qlt_irrefl v). eapply Qlt_le_trans; [exact B4|].
    eapply Qle_trans; [exact H|exact I3].
  - apply (Qlt_irrefl u). eapply Qlt_le_trans; [exact I2|].
    eapply Qle_trans; [exact H|exact B1].
  - apply (Qlt_irrefl v). eapply Qlt_le_trans; [exact I4|].
    eapply Qle_trans; [exact H|exact B3].
Qed.

Lemma empty_or_outside_box_witness :
  ∃ fp fpv,
    get_frustum_proposal engine_ok (100, 100, 3)%Z boxes_ok cloud_ok
    = inl (fp, fpv)
    ∧ fp !! 1%nat = Some (NdArray 4 [])
    ∧ fpv !! 1%nat = Some (NdArray 4 []).
Proof.
  destruct extraction_ok_returns as (fp & fpv & Hget & _).
  exists fp, fpv. split; [exact Hget|].
  apply (empty_or_outside_box calibs_ok engine_ok 100 100 3 boxes_ok
           cloud_ok fp fpv 1%nat (-10) (-10) 0 0
           init_calibs_ok cloud_ok_cloud Hget eq_refl).
  right. right. left. qdec.
Defined.

Lemma select_map_sublist {A B} (t t' : A → bool) (l : list A) (l2 : list B) :
  (∀ x, t x = true → t' x = true) →
  select (map t l) l2 `sublist_of` select (map t' l) l2.
Proof.
  intros Ht. revert l2. induction l as [|x l IH]; intros l2; simpl;
    [constructor|].
  destruct l2 as [|y l2]; [constructor|].
  destruct (t x) eqn:E.
  - rewrite (Ht x E). by constructor.
  - destruct (t' x); [by constructor|done].
Qed.

Lemma select_sublist {B} (mask : list bool) (l2 : list B) :
  select mask l2 `sublist_of` l2.
Proof.
  revert l2. induction mask as [|b mask IH]; intros l2; simpl;
    [apply sublist_nil_l|].
  destruct l2 as [|y l2]; [constructor|].
  destruct b; by constructor.
Qed.

(** X14. A box inside another one gets a sub-list, whatever the dtype of
    the cloud: when box [i] is contained in box [i'], the rows of the
    rectified subset of box [i] are, in order, among those of box [i'],
    which are, in order, among the rows of [pc_rect]. *)
Theorem nested_boxes_nested_frustums (calibs : gmap string (list Q))
    (eng : FrustumProposal) (dt : dtype) (img_shape : Z * Z * Z)
    (boxes2d : list (Q * Q * Q * Q)) (pc_velo : ndarray)
    (frustum_proposals frustum_proposals_velo : list ndarray)
    (i i' : nat) (xmin ymin xmax ymax xmin' ymin' xmax' ymax' : Q)
    (rect rect' : ndarray) :
  init calibs = inl eng → cloud 4 pc_velo →
  get_frustum_proposal_dt eng dt img_shape boxes2d pc_velo
    = inl (frustum_proposals, frustum_proposals_velo) →
  boxes2d !! i = Some (xmin, ymin, xmax, ymax) →
  boxes2d !! i' = Some (xmin', ymin', xmax', ymax') →
  xmin' <= xmin → ymin' <= ymin → xmax <= xmax' → ymax <= ymax' →
  frustum_proposals !! i = Some rect →
  frustum_proposals !! i' = Some rect' →
  rows rect `sublist_of` rows rect'
  ∧ rows rect' `sublist_of` rows (rect_cloud_dt eng dt pc_velo).
Proof.
  intros Hinit Hpc Hget Hbox Hbox' Hx1 Hy1 Hx2 Hy2 Hrect Hrect'.
  rewrite (constructed_mask_form _ _ _ _ _ _ _ _ Hinit Hpc Hget)
    in Hrect, Hrect'.
  change map with (@fmap list _) in Hrect, Hrect'.
  rewrite list_lookup_fmap, Hbox in Hrect.
  rewrite list_lookup_fmap, Hbox' in Hrect'.
  injection Hrect as <-. injection Hrect' as <-.
  rewrite !rows_take_mask.
  split; [|apply select_sublist].
  apply select_map_sublist. intros p.
  destruct img_shape as [[h w] c]. unfold in_frustum.
  rewrite !andb_true_iff. intros [Hin Hrest]. split; [|exact Hrest].
  apply in_box_iff in Hin as (u & v & Hu & Hv & B1 & B2 & B3 & B4).
  apply in_box_iff. exists u, v. repeat split; try done.
  - by eapply Qle_trans.
  - by eapply Qlt_le_trans.
  - by eapply Qle_trans.
  - by eapply Qlt_le_trans.
Qed.

Lemma nested_boxes_nested_frustums_witness :
  ∃ fp fpv rect rect',
    get_frustum_proposal_dt engine_ok Float64 (100, 100, 3)%Z boxes_ok
      cloud_ok = inl (fp, fpv)
    ∧ fp !! 2%nat = Some rect ∧ fp !! 0%nat = Some rect'
    ∧ rows rect `sublist_of` rows rect'
    ∧ rows rect' `sublist_of` rows (rect_cloud_dt engine_ok Float64 cloud_ok).
Proof.
  destruct extraction_float_ok_returns as (fp & fpv & Hget & Hlen).
  destruct fp as [|rect' [|r1 [|rect [|? ?]]]]; try discriminate.
  exists [rect'; r1; rect], fpv, rect, rect'.
  split; [exact Hget|]. split; [reflexivity|]. split; [reflexivity|].
  apply (nested_boxes_nested_frustums calibs_ok engine_ok Float64
           (100, 100, 3)%Z boxes_ok cloud_ok [rect'; r1; rect] fpv
           2%nat 0%nat 0 0 5 20 0 0 50 50 rect rect'
           init_calibs_ok cloud_ok_cloud Hget eq_refl eq_refl);
    first [reflexivity | qdec].
Defined.



(** ** The loop over the boxes *)

Lemma proposal_loop_acc (self : FrustumProposal) (pc_rect : ndarray)
    (pc_image_coord : list (list xval)) (img_fov_inds : list bool)
    (boxes2d : list (Q * Q * Q * Q)) (acc acc_velo : list ndarray) :
  proposal_loop self pc_rect pc_image_coord img_fov_inds boxes2d acc acc_velo
  = match proposal_loop self pc_rect pc_image_coord img_fov_inds boxes2d
            [] [] with
    | inl (out, out_velo) => inl ((acc ++ out)%list, (acc_velo ++ out_velo)%list)
    | inr e => inr e
    end.
Proof.
  revert acc acc_velo. induction boxes2d as [|box rest IH];
    intros acc acc_velo; simpl; [by rewrite !app_nil_r|].
  destruct (velo_fov self (take_mask
      (box_fov_inds pc_image_coord img_fov_inds box) pc_rect))
    as [velo|e]; simpl; [|done].
  rewrite (IH (acc ++ _)%list), (IH [_] [_]).
  destruct (proposal_loop self pc_rect pc_image_coord img_fov_inds rest [] [])
    as [[out out_velo]|e]; [|done].
  by rewrite <- !app_assoc.
Qed.

Lemma proposal_loop_app (self : FrustumProposal) (pc_rect : ndarray)
    (pc_image_coord : list (list xval)) (img_fov_inds : list bool)
    (boxes1 boxes2 : list (Q * Q * Q * Q)) (acc acc_velo : list ndarray) :
  proposal_loop self pc_rect pc_image_coord img_fov_inds
    (boxes1 ++ boxes2) acc acc_velo
  = bind (proposal_loop self pc_rect pc_image_coord img_fov_inds boxes1
            acc acc_velo)
      (λ o, proposal_loop self pc_rect pc_image_coord img_fov_inds boxes2
              o.1 o.2).
Proof.
  revert acc acc_velo. induction boxes1 as [|box rest IH];
    intros acc acc_velo; simpl; [done|].
  destruct (velo_fov self (take_mask
      (box_fov_inds pc_image_coord img_fov_inds box) pc_rect))
    as [velo|e]; simpl; [|done].
  apply IH.
Qed.

(** X16. The boxes do not interact: the extraction on two box lists in a
    row is the extraction on each, with the results appended; the first
    exception of the first list, else of the second, is the exception of the
    whole. *)
Theorem boxes_independent (self : FrustumProposal) (img_shape : Z * Z * Z)
    (boxes1 boxes2 : list (Q * Q * Q * Q)) (pc_velo : ndarray) :
  get_frustum_proposal self img_shape (boxes1 ++ boxes2) pc_velo
  = bind (get_frustum_proposal self img_shape boxes1 pc_velo) (λ o1,
    bind (get_frustum_proposal self img_shape boxes2 pc_velo) (λ o2,
    ok ((o1.1 ++ o2.1)%list, (o1.2 ++ o2.2)%list))).
Proof.
  destruct img_shape as [[h w] c]. unfold get_frustum_proposal.
  cbn [_get_lidar_in_image_fov].
  rewrite proposal_loop_app.
  destruct (proposal_loop self _ _ _ boxes1 [] []) as [[o1 ov1]|e];
    simpl; [|done].
  rewrite proposal_loop_acc.
  by destruct (proposal_loop self _ _ _ boxes2 [] []) as [[o2 ov2]|e].
Qed.

(** ** Shapes, errors and the empty cloud *)

(** X17. For a constructed object and an [n x 4] cloud, the extraction
    returns one pair per box, every subset is a [k x 4] array, and [k] is at
    most [n]. *)
Theorem extraction_shapes (calibs : gmap string (list Q))
    (eng : FrustumProposal) (img_shape : Z * Z * Z)
    (boxes2d : list (Q * Q * Q * Q)) (pc_velo : ndarray)
    (frustum_proposals frustum_proposals_velo : list ndarray) :
  init calibs = inl eng → cloud 4 pc_velo →
  get_frustum_proposal eng img_shape boxes2d pc_velo
    = inl (frustum_proposals, frustum_proposals_velo) →
  length frustum_proposals = length boxes2d
  ∧ length frustum_proposals_velo = length boxes2d
  ∧ Forall (λ a, cloud 4 a ∧ (nrows a ≤ nrows pc_velo)%nat) frustum_proposals
  ∧ Forall (λ a, cloud 4 a ∧ (nrows a ≤ nrows pc_velo)%nat)
      frustum_proposals_velo.
Proof.
  intros Hinit Hpc Hget.
  destruct (constructed_filter_form _ _ _ _ _ _ _ Hinit Hpc Hget)
    as [-> Hall].
  apply init_inv in Hinit as (p & v & r & (_ & _ & _ & Lp & Lv & Lr) & ->).
  destruct (engine_shaped p v r Lp Lv Lr)
    as (_ & _ & _ & _ & _ & _ & HCn & HRn).
  set (eng := engine_of p v r) in *.
  assert (∀ (f : list Q → list Q) (t : list Q → bool),
    (∀ q, length (f q) = 4%nat) →
    cloud 4 (NdArray 4 (map f (List.filter t (rows pc_velo))))
    ∧ (nrows (NdArray 4 (map f (List.filter t (rows pc_velo))))
       ≤ nrows pc_velo)%nat) as Hshape.
  { intros f t Hf. split; [split; [done|by apply shaped_map]|].
    unfold nrows. rewrite rows_mk, length_map.
    apply sublist_length, filter_all_sublist. }
  split; [by rewrite length_map|].
  split; [symmetry; by eapply Forall2_length|].
  split.
  - apply Forall_forall. intros a Ha.
    apply list_elem_of_In, in_map_iff in Ha as (box & <- & _).
    apply Hshape. intros q. by apply rect_row_parts.
  - apply Forall_forall. intros a Ha.
    apply list_elem_of_lookup in Ha as [i Hi].
    destruct (Forall2_lookup_r _ _ _ _ _ Hall Hi)
      as (box & _ & r0_inv & _ & ->).
    apply Hshape. intros q.
    unfold velo_row, affine. rewrite length_app, length_map. simpl.
    unfold nrows in HCn. lia.
Qed.

Lemma extraction_shapes_witness :
  ∃ fp fpv,
    get_frustum_proposal engine_ok (100, 100, 3)%Z boxes_ok cloud_ok
    = inl (fp, fpv)
    ∧ length fp = length boxes_ok ∧ length fpv = length boxes_ok
    ∧ Forall (λ a, cloud 4 a ∧ (nrows a ≤ nrows cloud_ok)%nat) fp
    ∧ Forall (λ a, cloud 4 a ∧ (nrows a ≤ nrows cloud_ok)%nat) fpv.
Proof.
  destruct extraction_ok_returns as (fp & fpv & Hget & _).
  exists fp, fpv. split; [exact Hget|].
  exact (extraction_shapes calibs_ok engine_ok _ _ _ _ _
           init_calibs_ok cloud_ok_cloud Hget).
Defined.

Lemma inv_error (m : ndarray) (e : exn) : inv m = inr e → e = LinAlgError.
Proof.
  unfold inv.
  destruct (rows m) as [|[|a [|b [|c [|? ?]]]] [|[|d [|e' [|f [|? ?]]]]
    [|[|g [|h [|i [|? ?]]]] [|? ?]]]]; try (by intros [= <-]).
  simpl. destruct (Qeq_bool _ 0); by intros [= <-].
Qed.

Lemma proposal_loop_error (self : FrustumProposal) (pc_rect : ndarray)
    (pc_image_coord : list (list xval)) (img_fov_inds : list bool)
    (boxes2d : list (Q * Q * Q * Q)) (acc acc_velo : list ndarray) (e : exn) :
  proposal_loop self pc_rect pc_image_coord img_fov_inds boxes2d acc acc_velo
    = inr e →
  e = LinAlgError ∧ boxes2d ≠ [].
Proof.
  revert acc acc_velo. induction boxes2d as [|box rest IH];
    intros acc acc_velo; simpl; [discriminate|].
  intros Hloop. split; [|discriminate].
  destruct (velo_fov self (take_mask
      (box_fov_inds pc_image_coord img_fov_inds box) pc_rect))
    as [velo|e'] eqn:Hvelo; simpl in Hloop.
  - by destruct (IH _ _ Hloop).
  - injection Hloop as <-.
    unfold velo_fov, project_rect_to_velo, _project_rect_to_ref in Hvelo.
    destruct (inv (R0 self)) as [r0_inv|e''] eqn:Hinv; simpl in Hvelo;
      [discriminate|].
    injection Hvelo as <-. by eapply inv_error.
Qed.

(** X18. On an [n x 4] cloud the only exception of the extraction of a
    constructed object is the [LinAlgError] of [np.linalg.inv(R0)], which
    the loop calls once per box: with no box the extraction returns two
    empty lists, whatever [R0] is; when it raises, there is a box and the
    exception is [LinAlgError]; with an invertible [R0] it returns. *)
Theorem extraction_errors (calibs : gmap string (list Q))
    (eng : FrustumProposal) (img_shape : Z * Z * Z)
    (boxes2d : list (Q * Q * Q * Q)) (pc_velo : ndarray) :
  init calibs = inl eng → cloud 4 pc_velo →
  get_frustum_proposal eng img_shape [] pc_velo = inl ([], [])
  ∧ (∀ e, get_frustum_proposal eng img_shape boxes2d pc_velo = inr e →
          e = LinAlgError ∧ boxes2d ≠ [])
  ∧ (invertible (R0 eng) →
     ∃ out, get_frustum_proposal eng img_shape boxes2d pc_velo = inl out).
Proof.
  intros Hinit Hpc.
  apply init_inv in Hinit as (p & v & r & (_ & _ & _ & Lp & Lv & Lr) & ->).
  destruct img_shape as [[h w] c].
  split; [reflexivity|]. split.
  - intros e. unfold get_frustum_proposal. cbn [_get_lidar_in_image_fov].
    apply proposal_loop_error.
  - intros Hinv.
    destruct (constructed_inv p v r Lr Hinv) as (r0_inv & Hr0 & _).
    by eapply get_frustum_proposal_returns.
Qed.

Lemma extraction_errors_witness :
  get_frustum_proposal engine_ok (100, 100, 3)%Z [] cloud_ok = inl ([], [])
  ∧ ∃ out, get_frustum_proposal engine_ok (100, 100, 3)%Z boxes_ok cloud_ok
           = inl out.
Proof.
  destruct (extraction_errors calibs_ok engine_ok (100, 100, 3)%Z boxes_ok
              cloud_ok init_calibs_ok cloud_ok_cloud) as (H1 & _ & H3).
  split; [exact H1|]. apply H3. vm_compute. discriminate.
Defined.

(** X19. For a constructed object, an empty [0 x 4] cloud gives, for every
    box, a pair of empty [0 x 4] subsets. *)
Theorem empty_cloud (calibs : gmap string (list Q))
    (eng : FrustumProposal) (img_shape : Z * Z * Z)
    (boxes2d : list (Q * Q * Q * Q))
    (frustum_proposals frustum_proposals_velo : list ndarray) :
  init calibs = inl eng →
  get_frustum_proposal eng img_shape boxes2d (NdArray 4 [])
    = inl (frustum_proposals, frustum_proposals_velo) →
  frustum_proposals = map (λ _, NdArray 4 []) boxes2d
  ∧ frustum_proposals_velo = map (λ _, NdArray 4 []) boxes2d.
Proof.
  intros Hinit Hget.
  assert (cloud 4 (NdArray 4 [])) as Hpc by (split; [done|constructor]).
  destruct (constructed_filter_form _ _ _ _ _ _ _ Hinit Hpc Hget)
    as [-> Hall].
  split; [done|]. rewrite rows_mk in Hall. simpl in Hall.
  clear Hget. induction Hall as [|box velo boxes velos Hv _ IH]; [done|].
  destruct Hv as (r0_inv & _ & ->). simpl. by rewrite IH.
Qed.

Lemma empty_cloud_witness :
  ∃ fp fpv,
    get_frustum_proposal engine_ok (100, 100, 3)%Z boxes_ok (NdArray 4 [])
    = inl (fp, fpv)
    ∧ fp = map (λ _, NdArray 4 []) boxes_ok
    ∧ fpv = map (λ _, NdArray 4 []) boxes_ok.
Proof.
  assert (∃ fp fpv,
    get_frustum_proposal engine_ok (100, 100, 3)%Z boxes_ok (NdArray 4 [])
    = inl (fp, fpv)) as (fp & fpv & Hget) by (vm_compute; eauto).
  exists fp, fpv. split; [exact Hget|].
  exact (empty_cloud calibs_ok engine_ok _ _ _ _ init_calibs_ok Hget).
Defined.

(** ** The rows of a frustum, in plain inequalities *)

Lemma in_frustum_iff (self : FrustumProposal) (img_height img_width c : Z)
    (xmin ymin xmax ymax : Q) (p : list Q) :
  in_frustum self (img_height, img_width, c) (xmin, ymin, xmax, ymax) p = true
  ↔ default_clip_distance < entry 0 p
    ∧ ∃ u v, pixel self (take 3 p) = [Fin u; Fin v]
             ∧ xmin <= u ∧ u < xmax ∧ ymin <= v ∧ v < ymax
             ∧ 0 <= u ∧ u < inject_Z img_width
             ∧ 0 <= v ∧ v < inject_Z img_height.
Proof.
  unfold in_frustum. rewrite !andb_true_iff, !in_box_iff, Qltb_lt.
  unfold pixel, xentry. cbn [nth]. split.
  - intros ((u & v & Hu & Hv & B1 & B2 & B3 & B4)
            & (u' & v' & Hu' & Hv' & I1 & I2 & I3 & I4) & Hclip).
    rewrite Hu in Hu'. rewrite Hv in Hv'.
    injection Hu' as <-. injection Hv' as <-.
    split; [exact Hclip|]. exists u, v. rewrite Hu, Hv. done.
  - intros (Hclip & u & v & [= Hu Hv] & B1 & B2 & B3 & B4 & I1 & I2 & I3 & I4).
    rewrite Hu, Hv. split; [|split; [|exact Hclip]]; exists u, v; done.
Qed.

(** X20. For a constructed object and an [n x 4] cloud of dtype float64, a
    row is in the rectified subset of box [(xmin, ymin, xmax, ymax)] exactly
    when it is the conversion of a cloud row whose first coordinate is
    greater than 2.0 and whose projection is finite, in the box and in the
    image, upper bounds excluded.  In particular no point at distance 2.0 or
    less, and no point projecting outside the image, is in any frustum. *)
Theorem frustum_rows (calibs : gmap string (list Q))
    (eng : FrustumProposal) (img_height img_width channels : Z)
    (boxes2d : list (Q * Q * Q * Q)) (pc_velo : ndarray)
    (frustum_proposals frustum_proposals_velo : list ndarray)
    (i : nat) (xmin ymin xmax ymax : Q) (rect : ndarray) :
  init calibs = inl eng → cloud 4 pc_velo →
  get_frustum_proposal_dt eng Float64 (img_height, img_width, channels)
    boxes2d pc_velo
    = inl (frustum_proposals, frustum_proposals_velo) →
  boxes2d !! i = Some (xmin, ymin, xmax, ymax) →
  frustum_proposals !! i = Some rect →
  ∀ r, r ∈ rows rect ↔
    ∃ p, p ∈ rows pc_velo ∧ r = rect_row eng p
         ∧ default_clip_distance < entry 0 p
         ∧ ∃ u v, pixel eng (take 3 p) = [Fin u; Fin v]
                  ∧ xmin <= u ∧ u < xmax ∧ ymin <= v ∧ v < ymax
                  ∧ 0 <= u ∧ u < inject_Z img_width
                  ∧ 0 <= v ∧ v < inject_Z img_height.
Proof.
  intros Hinit Hpc Hget Hbox Hrect r.
  rewrite get_frustum_proposal_float in Hget.
  destruct (constructed_pair _ _ _ _ _ _ _ _ _ Hinit Hpc Hget Hbox)
    as (_ & _ & Hi & _).
  rewrite Hi in Hrect. injection Hrect as <-. rewrite rows_mk.
  rewrite list_elem_of_In, in_map_iff. split.
  - intros (p & <- & Hp). apply filter_In in Hp as [Hp Ht].
    exists p. split; [by apply list_elem_of_In|]. split; [done|].
    by apply in_frustum_iff in Ht.
  - intros (p & Hp & -> & Hcond). exists p. split; [done|].
    apply filter_In. split; [by apply list_elem_of_In|].
    by apply in_frustum_iff.
Qed.

Lemma frustum_rows_witness :
  ∃ fp fpv rect,
    get_frustum_proposal_dt engine_ok Float64 (100, 100, 3)%Z boxes_ok
      cloud_ok = inl (fp, fpv)
    ∧ fp !! 0%nat = Some rect
    ∧ ∀ r, r ∈ rows rect ↔
        ∃ p, p ∈ rows cloud_ok ∧ r = rect_row engine_ok p
             ∧ default_clip_distance < entry 0 p
             ∧ ∃ u v, pixel engine_ok (take 3 p) = [Fin u; Fin v]
                      ∧ 0 <= u ∧ u < 50 ∧ 0 <= v ∧ v < 50
                      ∧ 0 <= u ∧ u < inject_Z 100
                      ∧ 0 <= v ∧ v < inject_Z 100.
Proof.
  destruct extraction_float_ok_returns as (fp & fpv & Hget & Hlen).
  destruct fp as [|rect fp]; [discriminate|].
  exists (rect :: fp), fpv, rect.
  split; [exact Hget|]. split; [reflexivity|].
  exact (frustum_rows calibs_ok engine_ok 100 100 3 boxes_ok cloud_ok
           (rect :: fp) fpv 0%nat 0 0 50 50 rect
           init_calibs_ok cloud_ok_cloud Hget eq_refl eq_refl).
Defined.

(** ** The field-of-view filter as a filter *)

Lemma fov_filter_form (self : FrustumProposal) (pc : ndarray)
    (xmin ymin xmax ymax clip : Q) :
  shaped (P self) → shaped (V2C self) → shaped pc →
  _get_lidar_in_image_fov self pc xmin ymin xmax ymax false clip
  = FovOnly (NdArray (ncols pc)
      (List.filter (λ p, in_box xmin ymin xmax ymax (pixel self p)
                         && Qltb clip (entry 0 p)) (rows pc))).
Proof.
  intros HP HV Hs.
  unfold _get_lidar_in_image_fov. f_equal. unfold take_mask. f_equal.
  rewrite velo_to_image_rows by done. unfold box_mask, column.
  rewrite !map_map, zip_with_map2.
  rewrite <- (map_id (rows pc)) at 2. rewrite select_map_filter.
  by rewrite map_id.
Qed.

(** X21. For a constructed object and an [n x 3] array of points, what
    [_get_lidar_in_image_fov] returns by default is the input filtered, rows
    unchanged and in order, by: projection in
    [[xmin, xmax) x [ymin, ymax)] and first coordinate greater than
    [clip_distance]. *)
Theorem fov_as_filter (calibs : gmap string (list Q))
    (eng : FrustumProposal) (pc : ndarray) (xmin ymin xmax ymax clip : Q) :
  init calibs = inl eng → cloud 3 pc →
  _get_lidar_in_image_fov eng pc xmin ymin xmax ymax false clip
  = FovOnly (NdArray (ncols pc)
      (List.filter (λ p, in_box xmin ymin xmax ymax (pixel eng p)
                         && Qltb clip (entry 0 p)) (rows pc))).
Proof.
  intros Hinit [Hc Hs].
  apply init_inv in Hinit as (p & v & r & (_ & _ & _ & Lp & Lv & Lr) & ->).
  destruct (engine_shaped p v r Lp Lv Lr) as (HP & HV & _).
  by apply fov_filter_form.
Qed.

Lemma fov_as_filter_witness :
  _get_lidar_in_image_fov engine_ok points_ok 0 0 100 100 false
    default_clip_distance
  = FovOnly (NdArray (ncols points_ok)
      (List.filter (λ p, in_box 0 0 100 100 (pixel engine_ok p)
                         && Qltb default_clip_distance (entry 0 p))
         (rows points_ok))).
Proof.
  apply (fov_as_filter calibs_ok engine_ok points_ok).
  - exact init_calibs_ok.
  - exact points_ok_cloud.
Defined.

(** X22. Shrinking the bounds or raising the clip distance only removes
    points: the filtered subset for the smaller bounds and the larger clip
    distance is, in order, among the rows of the other subset, which are, in
    order, among the input rows. *)
Theorem fov_monotone (calibs : gmap string (list Q))
    (eng : FrustumProposal) (pc : ndarray)
    (xmin ymin xmax ymax clip xmin' ymin' xmax' ymax' clip' : Q)
    (sub sub' : ndarray) :
  init calibs = inl eng → shaped pc →
  xmin' <= xmin → ymin' <= ymin → xmax <= xmax' → ymax <= ymax' →
  clip' <= clip →
  _get_lidar_in_image_fov eng pc xmin ymin xmax ymax false clip
    = FovOnly sub →
  _get_lidar_in_image_fov eng pc xmin' ymin' xmax' ymax' false clip'
    = FovOnly sub' →
  rows sub `sublist_of` rows sub' ∧ rows sub' `sublist_of` rows pc.
Proof.
  intros Hinit Hs Hx1 Hy1 Hx2 Hy2 Hclip Hsub Hsub'.
  apply init_inv in Hinit as (p & v & r & (_ & _ & _ & Lp & Lv & Lr) & ->).
  destruct (engine_shaped p v r Lp Lv Lr) as (HP & HV & _).
  set (eng := engine_of p v r) in *.
  rewrite (fov_filter_form eng pc _ _ _ _ _ HP HV Hs) in Hsub.
  rewrite (fov_filter_form eng pc _ _ _ _ _ HP HV Hs) in Hsub'.
  injection Hsub as <-. injection Hsub' as <-. rewrite !rows_mk.
  split; [|apply filter_all_sublist].
  apply filter_sublist. intros q.
  rewrite !andb_true_iff, !Qltb_lt. intros [Hin Hc]. split.
  - apply in_box_iff in Hin as (u & w & Hu & Hw & B1 & B2 & B3 & B4).
    apply in_box_iff. exists u, w. repeat split; try done.
    + by eapply Qle_trans.
    + by eapply Qlt_le_trans.
    + by eapply Qle_trans.
    + by eapply Qlt_le_trans.
  - by eapply Qle_lt_trans.
Qed.

Lemma fov_monotone_witness :
  ∃ sub sub',
    _get_lidar_in_image_fov engine_ok points_ok 0 0 5 20 false 3
      = FovOnly sub
    ∧ _get_lidar_in_image_fov engine_ok points_ok 0 0 100 100 false
        default_clip_distance = FovOnly sub'
    ∧ rows sub `sublist_of` rows sub'
    ∧ rows sub' `sublist_of` rows points_ok.
Proof.
  eexists _, _. split; [reflexivity|]. split; [reflexivity|].
  apply (fov_monotone calibs_ok engine_ok points_ok
           0 0 5 20 3 0 0 100 100 default_clip_distance);
    first [exact init_calibs_ok | apply points_ok_cloud | reflexivity | qdec].
Defined.

(** ** The pairs on a cloud of integer dtype *)

(** C2, the code at an integer cloud.  With the calibration [calibs_ok],
    image shape (100,100,3), the box [0,0,50,50] and the cloud [[5,1,2,1]] of
    integer dtype, [np.zeros_like] makes [pc_rect] and [pc_in_velo_fov]
    integer arrays and the assignments truncate: the pair returned is
    [[0,-1,5,1]] and [[5,1,1,1]], while [project_rect_to_velo] of the
    rectified row [0,-1,5] is [5, 13/10, 8/5].  The sensor-frame row is not
    the conversion of the rectified row, and not the cloud row [5,1,2,1]
    that the same run on a float64 cloud returns. *)
Theorem integer_cloud_breaks_pairing :
  init calibs_ok = inl engine_ok
  ∧ get_frustum_proposal_dt engine_ok Int64 (100, 100, 3)%Z [(0, 0, 50, 50)]
      cloud_int
    = inl ([NdArray 4 [[0; -1; 5; 1]]], [NdArray 4 [[5; 1; 1; 1]]])
  ∧ (∃ out, project_rect_to_velo engine_ok (NdArray 3 [[0; -1; 5]]) = inl out
            ∧ arr_eq out (NdArray 3 [[5; 13 # 10; 8 # 5]])
            ∧ ¬ arr_eq out (NdArray 3 [[5; 1; 1]]))
  ∧ (∃ rect velo,
       get_frustum_proposal_dt engine_ok Float64 (100, 100, 3)%Z
         [(0, 0, 50, 50)] cloud_int = inl ([rect], [velo])
       ∧ arr_eq rect (NdArray 4 [[1 # 2; -1; 5; 1]])
       ∧ arr_eq velo (NdArray 4 [[5; 1; 2; 1]])).
Proof.
  split; [exact init_calibs_ok|].
  split; [vm_compute; reflexivity|]. split.
  - eexists. split; [vm_compute; reflexivity|]. split.
    + split; [reflexivity|]. vm_compute. rows_eq.
    + intros [_ H]. vm_compute in H.
      apply Forall2_cons_1 in H as [H _].
      apply Forall2_cons_1 in H as [_ H].
      apply Forall2_cons_1 in H as [H _]. discriminate H.
  - eexists _, _. split; [vm_compute; reflexivity|].
    split; (split; [reflexivity|]; vm_compute; rows_eq).
Qed.
